(** * The Chap3 optimisation notebooks: models, solver contract and reports

    The repository consists of two notebooks (each in an English and a
    Mandarin edition with the same code cells):

    - [Chap3/wyndor_glass_co_uses_gurobi_for_linear_programming_problems.ipynb]
    - [Chap3/Radiation Therapy Treatment Optimization using Gurobi.ipynb]

    Every notebook creates a [gp.Model], adds variables with [addVar], sets
    the objective with [setObjective], adds constraints with [addConstr],
    calls [optimize] and then prints the solution behind a test of
    [model.status == GRB.OPTIMAL].

    The cells mutate one [model] object; here they are commands of a state
    monad over [Model].  Numbers are exact rationals: the decimal literals
    of the cells ([0.3], [2.7], ...) are read as the rationals they denote.
    The solver is an external library: it is a parameter [solver], and the
    contract [exact] says what an exact LP/MIP solver leaves in the model;
    [exact_solver] is that contract on the solver itself, as a function of
    the problem data it is handed.
    The report cells of the editions differ in their texts only, which are
    parameters of [report].

    The design document of the repository also describes a builder
    interface ([declare_variable], [add_constraint]) that the notebooks do
    not define; module [Builder] models it from that description. *)

From Stdlib Require Import QArith Qminmax Lqa ZArith Lia List String Bool.
From Stdlib Require Import ClassicalEpsilon.
From ExtLib Require Import Structures.Monad Structures.MonadState.
From ExtLib Require Import Structures.MonadExc Structures.MonadTrans.
From ExtLib Require Import Data.Monads.StateMonad Data.Monads.EitherMonad.
Import ListNotations.
Import MonadNotation.
Local Open Scope monad_scope.
Local Open Scope Q_scope.
Local Open Scope string_scope.

(** ** Data model *)

(** [GRB.CONTINUOUS], [GRB.BINARY], [GRB.INTEGER]. *)
Inductive vtype : Type := CONTINUOUS | BINARY | INTEGER.

(** [GRB.MINIMIZE], [GRB.MAXIMIZE]. *)
Inductive objsense : Type := MINIMIZE | MAXIMIZE.

(** The comparison of a constraint: [<=], [==], [>=]. *)
Inductive csense : Type := LE | EQ | GE.

(** A variable handle, as returned by [addVar]: the column it occupies. *)
Definition Var : Type := nat.

(** The attributes of a column.  [UB = None] is the default, no upper
    bound. *)
Record VarInfo : Type := mkVarInfo {
  VarName : string;
  VType : vtype;
  LB : Q;
  UB : option Q
}.

(** A linear expression: coefficient-variable terms and a constant. *)
Record LinExpr : Type := mkLinExpr {
  terms : list (Q * Var);
  constant : Q
}.

(** What a comparison of two expressions builds ([x1 <= 4]), before it is
    handed to [addConstr]. *)
Record TempConstr : Type := mkTempConstr {
  tc_lhs : LinExpr;
  tc_sense : csense;
  tc_rhs : LinExpr
}.

Record Constr : Type := mkConstr {
  ConstrName : string;
  lhs : LinExpr;
  sense : csense;
  rhs : LinExpr
}.

(** The codes of [model.status]. *)
Inductive status : Type :=
  | LOADED | OPTIMAL | INFEASIBLE | INF_OR_UNBD | UNBOUNDED | CUTOFF
  | ITERATION_LIMIT | NODE_LIMIT | TIME_LIMIT | SOLUTION_LIMIT
  | INTERRUPTED | NUMERIC | SUBOPTIMAL | INPROGRESS | USER_OBJ_LIMIT
  | WORK_LIMIT | MEM_LIMIT.

(** A solution: the value [v.x] of every column, and [model.objVal]. *)
Record Solution : Type := mkSolution {
  X : list Q;
  ObjVal : Q
}.

(** What a solve answers: the status and, when there is one, a solution. *)
Definition SolveResult : Type := (status * option Solution)%type.

(** The [model] object: the problem data the cells build, and the solution
    attributes [optimize] fills in. *)
Record Model : Type := mkModel {
  ModelName : string;
  vars : list VarInfo;
  objective : LinExpr;
  ModelSense : objsense;
  constrs : list Constr;
  Status : status;
  Sol : option Solution
}.

(** *** Building expressions, the way the overloaded operators do *)

Definition var (x : Var) : LinExpr := mkLinExpr [(1, x)] 0.
Definition const (c : Q) : LinExpr := mkLinExpr [] c.
Definition scale (c : Q) (x : Var) : LinExpr := mkLinExpr [(c, x)] 0.
Definition plus (e1 e2 : LinExpr) : LinExpr :=
  mkLinExpr (terms e1 ++ terms e2) (constant e1 + constant e2).

Declare Scope lin_scope.
Delimit Scope lin_scope with lin.
Notation "c *: x" := (scale c x) (at level 40, no associativity) : lin_scope.
Notation "e1 +: e2" := (plus e1 e2) (at level 50, left associativity) : lin_scope.
Notation "e1 <=: e2" := (mkTempConstr e1 LE e2) (at level 70, no associativity) : lin_scope.
Notation "e1 ==: e2" := (mkTempConstr e1 EQ e2) (at level 70, no associativity) : lin_scope.
Notation "e1 >=: e2" := (mkTempConstr e1 GE e2) (at level 70, no associativity) : lin_scope.
Local Open Scope lin_scope.

(** ** The modelling calls *)

(** [gp.Model(name)]: no variable, no constraint, the zero objective and
    the default sense, minimisation.  A model that is built or changed has
    status [LOADED] and no solution. *)
Definition newModel (name : string) : Model :=
  mkModel name [] (const 0) MINIMIZE [] LOADED None.

(** The default of the keyword [lb] of [addVar]. *)
Definition default_lb : Q := 0.

(** [model.addVar(name=..., vtype=..., lb=...)]; [lb = None] when the
    keyword is left out.  The column is appended; the handle is its
    position.  No upper bound is passed in the cells, so it is the default;
    a binary column is bounded to [0, 1]. *)
Definition addVar (name : string) (vt : vtype) (lb : option Q) : state Model Var :=
  m <- get ;;
  let l := match lb with Some l => l | None => default_lb end in
  let info :=
    match vt with
    | BINARY => mkVarInfo name BINARY (Qmax l 0) (Some 1)
    | _ => mkVarInfo name vt l None
    end in
  put (mkModel (ModelName m) (vars m ++ [info]) (objective m)
               (ModelSense m) (constrs m) LOADED None) ;;
  ret (List.length (vars m)).

(** [model.setObjective(expr, sense)] replaces the objective. *)
Definition setObjective (e : LinExpr) (s : objsense) : state Model unit :=
  m <- get ;;
  put (mkModel (ModelName m) (vars m) e s (constrs m) LOADED None).

(** [model.addConstr(lhs <= rhs, name=...)] appends the constraint and
    returns its row. *)
Definition addConstr (tc : TempConstr) (name : string) : state Model nat :=
  m <- get ;;
  put (mkModel (ModelName m) (vars m) (objective m) (ModelSense m)
               (constrs m ++ [mkConstr name (tc_lhs tc) (tc_sense tc) (tc_rhs tc)])
               LOADED None) ;;
  ret (List.length (constrs m)).

(** ** The solver *)

(** The external solver reads the problem data and answers a status and,
    possibly, a solution.  Nothing else about it is in the repository. *)
Definition solver_t : Type :=
  list VarInfo -> LinExpr -> objsense -> list Constr -> SolveResult.

(** [model.optimize()] hands the problem data to the solver and stores the
    answer in the model's solution attributes. *)
Definition optimize (solver : solver_t) : state Model unit :=
  m <- get ;;
  let r := solver (vars m) (objective m) (ModelSense m) (constrs m) in
  put (mkModel (ModelName m) (vars m) (objective m) (ModelSense m)
               (constrs m) (fst r) (snd r)).

(** ** The notebooks' model cells *)

Module Wyndor.

(** Steps 3 to 5 of the Wyndor Glass Co. notebook. *)
Definition cells : state Model (Var * Var) :=
  x1 <- addVar "x1" CONTINUOUS (Some 0) ;;
  x2 <- addVar "x2" CONTINUOUS (Some 0) ;;
  setObjective (3 *: x1 +: 5 *: x2) MAXIMIZE ;;
  addConstr (var x1 <=: const 4) "Plant1_Capacity" ;;
  addConstr (2 *: x2 <=: const 12) "Plant2_Capacity" ;;
  addConstr (3 *: x1 +: 2 *: x2 <=: const 18) "Plant3_Capacity" ;;
  ret (x1, x2).

Definition model : Model :=
  Eval vm_compute in execState cells (newModel "Wyndor_Glass_Co").

Definition x1 : Var := fst (evalState cells (newModel "Wyndor_Glass_Co")).
Definition x2 : Var := snd (evalState cells (newModel "Wyndor_Glass_Co")).

End Wyndor.

Module Radiation.

(** The Big-M constant of the linking constraints. *)
Definition M : Q := 10.

(** Steps 3 and 4, and the first three constraints of step 5. *)
Definition cells_base : state Model (Var * Var * Var * Var) :=
  x1 <- addVar "x1" CONTINUOUS (Some 0) ;;
  x2 <- addVar "x2" CONTINUOUS (Some 0) ;;
  y1 <- addVar "y1" BINARY None ;;
  y2 <- addVar "y2" BINARY None ;;
  setObjective (0.4 *: x1 +: 0.5 *: x2) MINIMIZE ;;
  addConstr (0.3 *: x1 +: 0.1 *: x2 <=: const 2.7) "Constraint1" ;;
  addConstr (0.5 *: x1 +: 0.5 *: x2 ==: const 6) "Constraint2" ;;
  addConstr (0.6 *: x1 +: 0.4 *: x2 >=: const 6) "Constraint3" ;;
  ret (x1, x2, y1, y2).

(** The linking constraints that end step 5. *)
Definition cells_linking (h : Var * Var * Var * Var) : state Model unit :=
  let '(x1, x2, y1, y2) := h in
  addConstr (var x1 <=: M *: y1) "Linking_x1_y1" ;;
  addConstr (var x2 <=: M *: y2) "Linking_x2_y2" ;;
  ret tt.

Definition cells : state Model (Var * Var * Var * Var) :=
  h <- cells_base ;;
  cells_linking h ;;
  ret h.

Definition handles : Var * Var * Var * Var :=
  Eval vm_compute in
    evalState cells (newModel "Radiation_Therapy_Optimization").

Definition x1 : Var := fst (fst (fst handles)).
Definition x2 : Var := snd (fst (fst handles)).
Definition y1 : Var := snd (fst handles).
Definition y2 : Var := snd handles.

(** The model before the linking constraints are added. *)
Definition model_unlinked : Model :=
  Eval vm_compute in
    execState cells_base (newModel "Radiation_Therapy_Optimization").

Definition model : Model :=
  Eval vm_compute in
    execState cells (newModel "Radiation_Therapy_Optimization").

End Radiation.

(** ** What a solution means *)

(** The value of a column in a vector of values. *)
Definition value (a : list Q) (x : Var) : Q := nth x a 0.

Fixpoint eval_terms (ts : list (Q * Var)) (a : list Q) : Q :=
  match ts with
  | [] => 0
  | (c, x) :: ts' => c * value a x + eval_terms ts' a
  end.

Definition eval (e : LinExpr) (a : list Q) : Q :=
  eval_terms (terms e) a + constant e.

(** A rational that is an integer. *)
Definition integral (q : Q) : Prop := exists z : Z, q == inject_Z z.

Definition integralb (q : Q) : bool := Pos.eqb (Qden (Qred q)) 1.

Definition in_bounds (i : VarInfo) (q : Q) : Prop :=
  LB i <= q /\ match UB i with Some u => q <= u | None => True end.

Definition in_boundsb (i : VarInfo) (q : Q) : bool :=
  Qle_bool (LB i) q && match UB i with Some u => Qle_bool q u | None => true end.

(** A value a column may take: within its bounds, and whole unless the
    column is continuous. *)
Definition in_domain (i : VarInfo) (q : Q) : Prop :=
  in_bounds i q /\ match VType i with CONTINUOUS => True | _ => integral q end.

Definition in_domainb (i : VarInfo) (q : Q) : bool :=
  in_boundsb i q && match VType i with CONTINUOUS => true | _ => integralb q end.

(** One value per column, each in its column's domain. *)
Fixpoint domains (vs : list VarInfo) (a : list Q) : Prop :=
  match vs, a with
  | [], [] => True
  | i :: vs', q :: a' => in_domain i q /\ domains vs' a'
  | _, _ => False
  end.

Fixpoint domainsb (vs : list VarInfo) (a : list Q) : bool :=
  match vs, a with
  | [], [] => true
  | i :: vs', q :: a' => in_domainb i q && domainsb vs' a'
  | _, _ => false
  end.

Definition holds (a : list Q) (c : Constr) : Prop :=
  match sense c with
  | LE => eval (lhs c) a <= eval (rhs c) a
  | EQ => eval (lhs c) a == eval (rhs c) a
  | GE => eval (rhs c) a <= eval (lhs c) a
  end.

Definition holdsb (a : list Q) (c : Constr) : bool :=
  match sense c with
  | LE => Qle_bool (eval (lhs c) a) (eval (rhs c) a)
  | EQ => Qeq_bool (eval (lhs c) a) (eval (rhs c) a)
  | GE => Qle_bool (eval (rhs c) a) (eval (lhs c) a)
  end.

Fixpoint all_hold (a : list Q) (cs : list Constr) : Prop :=
  match cs with
  | [] => True
  | c :: cs' => holds a c /\ all_hold a cs'
  end.

(** A feasible point of a model. *)
Definition feasible (m : Model) (a : list Q) : Prop :=
  domains (vars m) a /\ all_hold a (constrs m).

Definition feasibleb (m : Model) (a : list Q) : bool :=
  domainsb (vars m) a && forallb (holdsb a) (constrs m).

Definition objval (m : Model) (a : list Q) : Q := eval (objective m) a.

(** [z] is at least as good an objective value as [z']. *)
Definition no_worse (s : objsense) (z z' : Q) : Prop :=
  match s with
  | MINIMIZE => z <= z'
  | MAXIMIZE => z' <= z
  end.

Definition is_optimum (m : Model) (a : list Q) : Prop :=
  feasible m a /\
  forall b, feasible m b -> no_worse (ModelSense m) (objval m a) (objval m b).

(** The solution attributes of a model are those an exact solver leaves:
    the status is [OPTIMAL] exactly when the problem has an optimum, and
    then the solution stored is an optimum with its objective value.  This
    is all that is assumed of the external solver. *)
Record exact (m : Model) : Prop := mkExact {
  exact_complete : (exists a, is_optimum m a) -> Status m = OPTIMAL;
  exact_sound :
    Status m = OPTIMAL ->
    exists s, Sol m = Some s /\ is_optimum m (X s) /\ ObjVal s == objval m (X s)
}.

(** Two vectors of values are the same, value by value. *)
Definition same_values (a b : list Q) : Prop := Forall2 Qeq a b.

(** ** The report cells *)

(** A printed line: a fixed text, or an f-string that ends in a number,
    kept as its text and the number shown. *)
Inductive line : Type :=
  | Text (s : string)
  | Shown (s : string) (q : Q).

Definition is_shown (l : line) : bool :=
  match l with
  | Text _ => false
  | Shown _ _ => true
  end.

(** Reading an attribute that the model does not have raises. *)
Inductive exn : Type := AttributeError (attr : string).

(** A cell prints lines and may stop on an exception; what was printed
    before stays printed. *)
Definition io : Type -> Type := eitherT exn (state (list line)).

Definition run {A : Type} (c : io A) : (exn + A) * list line :=
  runState (unEitherT c) [].

Definition print (l : line) : io unit :=
  lift (modify (fun out => (out ++ [l])%list)) ;; ret tt.

Definition status_eqb (s t : status) : bool :=
  match s, t with
  | LOADED, LOADED | OPTIMAL, OPTIMAL | INFEASIBLE, INFEASIBLE
  | INF_OR_UNBD, INF_OR_UNBD | UNBOUNDED, UNBOUNDED | CUTOFF, CUTOFF
  | ITERATION_LIMIT, ITERATION_LIMIT | NODE_LIMIT, NODE_LIMIT
  | TIME_LIMIT, TIME_LIMIT | SOLUTION_LIMIT, SOLUTION_LIMIT
  | INTERRUPTED, INTERRUPTED | NUMERIC, NUMERIC | SUBOPTIMAL, SUBOPTIMAL
  | INPROGRESS, INPROGRESS | USER_OBJ_LIMIT, USER_OBJ_LIMIT
  | WORK_LIMIT, WORK_LIMIT | MEM_LIMIT, MEM_LIMIT => true
  | _, _ => false
  end.

(** [v.x]: the value of a column in the stored solution. *)
Definition getX (m : Model) (x : Var) : io Q :=
  match Sol m with
  | Some s =>
      match nth_error (X s) x with
      | Some q => ret q
      | None => raise (AttributeError "X")
      end
  | None => raise (AttributeError "X")
  end.

(** [model.objVal]. *)
Definition getObjVal (m : Model) : io Q :=
  match Sol m with
  | Some s => ret (ObjVal s)
  | None => raise (AttributeError "ObjVal")
  end.

(** The value lines of a report cell, in order: each reads [v.x] and
    prints it behind its text. *)
Fixpoint print_values (m : Model) (items : list (string * Var)) : io unit :=
  match items with
  | [] => ret tt
  | (label, x) :: rest =>
      v <- getX m x ;;
      print (Shown label v) ;;
      print_values m rest
  end.

(** The last cell of a notebook:
<<
    if model.status == GRB.OPTIMAL:
        print(found)
        print(f"{label} = {v.x}")       for each (label, v) of items
        print(f"{objlabel} = {model.objVal}")
    else:
        print(none)
>> *)
Definition report (found : string) (items : list (string * Var))
    (objlabel none : string) (m : Model) : io unit :=
  if status_eqb (Status m) OPTIMAL then
    print (Text found) ;;
    print_values m items ;;
    z <- getObjVal m ;;
    print (Shown objlabel z)
  else
    print (Text none).

Definition wyndor_report : Model -> io unit :=
  report "Optimal solution found:"
    [("  x1 (Product 1 batches per week) = ", Wyndor.x1);
     ("  x2 (Product 2 batches per week) = ", Wyndor.x2)]
    "  Maximum Profit (in thousands of dollars) = "
    "No optimal solution found.".

Definition radiation_report : Model -> io unit :=
  report "Optimal solution found:"
    [("  x1 (Treatment intensity 1) = ", Radiation.x1);
     ("  x2 (Treatment intensity 2) = ", Radiation.x2);
     ("  y1 (Placement decision 1) = ", Radiation.y1);
     ("  y2 (Placement decision 2) = ", Radiation.y2)]
    "  Minimum impact (Z) = "
    "No optimal solution found.".

(** A whole notebook: build the model, optimize, report. *)
Definition wyndor_notebook (solver : solver_t) : (exn + unit) * list line :=
  run (wyndor_report (execState (optimize solver) Wyndor.model)).

Definition radiation_notebook (solver : solver_t) : (exn + unit) * list line :=
  run (radiation_report (execState (optimize solver) Radiation.model)).

(** ** Models the calls can build *)

Inductive built : Model -> Prop :=
  | built_new name : built (newModel name)
  | built_addVar name vt lb m :
      built m -> built (execState (addVar name vt lb) m)
  | built_setObjective e s m :
      built m -> built (execState (setObjective e s) m)
  | built_addConstr tc name m :
      built m -> built (execState (addConstr tc name) m)
  | built_optimize solver m :
      built m -> built (execState (optimize solver) m).

(** Every binary column is bounded to [0, 1]. *)
Definition binary_bounded (i : VarInfo) : Prop :=
  VType i = BINARY -> 0 <= LB i /\ UB i = Some 1.

(** ** The builder interface of the design *)

Module Builder.

(** Modelled from the spec: the kinds of a Variable (section 3). *)
Inductive kind : Type := continuous | binary | integer.

(** Modelled from the spec: a Variable, identified by its name, with a
    kind and optional bounds (section 3).  The repository declares no
    such type; its cells hold the solver library's handles. *)
Record variable : Type := mkVariable {
  name : string;
  vkind : kind;
  lower : option Q;
  upper : option Q
}.

(** Modelled from the spec: a LinearExpression, an ordered mapping from
    Variable (by name) to coefficient, plus a constant term. *)
Record linear_expression : Type := mkLinearExpression {
  coefficients : list (string * Q);
  constant_term : Q
}.

Inductive operator : Type := le | eq | ge.

Inductive direction : Type := minimize | maximize.

(** Modelled from the spec: a Constraint, a LinearExpression with an
    operator, a right-hand side and a name. *)
Record constraint : Type := mkConstraint {
  expression : linear_expression;
  op : operator;
  rhs : Q;
  cname : string
}.

(** Modelled from the spec: a Model owns its Variables, its Objective and
    the ordered sequence of its Constraints. *)
Record model : Type := mkModel {
  variables : list variable;
  objective : option (linear_expression * direction);
  constraints : list constraint
}.

Definition empty : model := mkModel [] None [].

(** Modelled from the spec: the errors of section 7 that the two
    declarations raise. *)
Inductive error : Type := DuplicateNameError | UnknownVariableError.

Definition declared (m : model) (n : string) : bool :=
  existsb (String.eqb n) (map name (variables m)).

Definition references (e : linear_expression) : list string :=
  map fst (coefficients e).

(** Modelled from the spec: [declare_variable(name, kind, lower_bound,
    upper_bound)], which the repository does not define (its cells call
    the solver library's [addVar]).  It fails with [DuplicateNameError]
    when the name exists in the Model; a continuous Variable has lower
    bound 0 by default; a binary one is bounded to [0, 1] whatever bounds
    are supplied.  The call answers an error or the Variable, and the
    Model it leaves. *)
Definition declare_variable (n : string) (k : kind) (lb ub : option Q)
    (m : model) : (error + variable) * model :=
  if declared m n then (inl DuplicateNameError, m)
  else
    let v :=
      match k with
      | binary => mkVariable n binary (Some 0) (Some 1)
      | continuous =>
          mkVariable n continuous
            (Some match lb with Some l => l | None => 0 end) ub
      | integer => mkVariable n integer lb ub
      end in
    (inr v, mkModel (variables m ++ [v]) (objective m) (constraints m)).

(** Modelled from the spec: [set_objective(expression, direction)]
    replaces the objective. *)
Definition set_objective (e : linear_expression) (d : direction)
    (m : model) : model :=
  mkModel (variables m) (Some (e, d)) (constraints m).

(** Modelled from the spec: [add_constraint(expression, operator, rhs,
    name)], which the repository does not define (its cells call the
    solver library's [addConstr]).  It fails with [UnknownVariableError]
    when the expression references a Variable that is not declared in
    the Model, with [DuplicateNameError] when the name collides with a
    Constraint's, and appends the Constraint otherwise.  The spec does
    not order the two checks; the Variables are checked first here. *)
Definition add_constraint (e : linear_expression) (o : operator) (r : Q)
    (cn : string) (m : model) : (error + constraint) * model :=
  if negb (forallb (declared m) (references e)) then
    (inl UnknownVariableError, m)
  else if existsb (String.eqb cn) (map cname (constraints m)) then
    (inl DuplicateNameError, m)
  else
    let c := mkConstraint e o r cn in
    (inr c, mkModel (variables m) (objective m) (constraints m ++ [c])).

(** The Models the three operations build from the empty one. *)
Inductive reachable : model -> Prop :=
  | reach_empty : reachable empty
  | reach_declare n k lb ub m v m' :
      reachable m ->
      declare_variable n k lb ub m = (inr v, m') -> reachable m'
  | reach_objective e d m :
      reachable m -> reachable (set_objective e d m)
  | reach_constraint e o r cn m c m' :
      reachable m ->
      add_constraint e o r cn m = (inr c, m') -> reachable m'.

End Builder.

(** ** Outputs, sample solvers and sample Models *)

(** What the Wyndor notebook prints for the values [v1], [v2] and the
    objective value [z]. *)
Definition wyndor_output (v1 v2 z : Q) : list line :=
  [Text "Optimal solution found:";
   Shown "  x1 (Product 1 batches per week) = " v1;
   Shown "  x2 (Product 2 batches per week) = " v2;
   Shown "  Maximum Profit (in thousands of dollars) = " z].

(** A solver that answers the Wyndor model with its optimum. *)
Definition wyndor_oracle : solver_t :=
  fun _ _ _ _ => (OPTIMAL, Some (mkSolution [2; 6] 36)).

(** What the Radiation Therapy notebook prints for the values and the
    objective value. *)
Definition radiation_output (v1 v2 w1 w2 z : Q) : list line :=
  [Text "Optimal solution found:";
   Shown "  x1 (Treatment intensity 1) = " v1;
   Shown "  x2 (Treatment intensity 2) = " v2;
   Shown "  y1 (Placement decision 1) = " w1;
   Shown "  y2 (Placement decision 2) = " w2;
   Shown "  Minimum impact (Z) = " z].

(** A solver that answers the Radiation Therapy model with its optimum. *)
Definition radiation_oracle : solver_t :=
  fun _ _ _ _ => (OPTIMAL, Some (mkSolution [7.5; 4.5; 1; 1] 5.25)).

(** A solver that answers [INFEASIBLE] and stores no solution, whatever
    the problem. *)
Definition refusing_solver : solver_t := fun _ _ _ _ => (INFEASIBLE, None).

(** The Model after [x1] has been declared. *)
Definition one_variable : Builder.model :=
  snd (Builder.declare_variable "x1" Builder.continuous None None Builder.empty).

(** An expression over [x1] and the undeclared [x2]. *)
Definition x1_plus_x2 : Builder.linear_expression :=
  Builder.mkLinearExpression [("x1", 1); ("x2", 1)] 0.

(** ** The Mandarin edition, later calls and changed values *)

(** The report cell of the Mandarin edition of the Wyndor notebook: the
    same cell with its texts translated. *)
Definition wyndor_report_zh : Model -> io unit :=
  report "找到最優解："
    [("  x1（每週產品 1 的批次數）= ", Wyndor.x1);
     ("  x2（每週產品 2 的批次數）= ", Wyndor.x2)]
    "  最大利潤（以千美元計）= "
    "未找到最優解。".

(** The numbers a cell has printed, in order. *)
Fixpoint numbers (out : list line) : list Q :=
  match out with
  | [] => []
  | Text _ :: rest => numbers rest
  | Shown _ q :: rest => q :: numbers rest
  end.

(** One call on the model object. *)
Inductive call : Model -> Model -> Prop :=
  | call_addVar name vt lb m : call m (execState (addVar name vt lb) m)
  | call_setObjective e s m : call m (execState (setObjective e s) m)
  | call_addConstr tc name m : call m (execState (addConstr tc name) m)
  | call_optimize solver m : call m (execState (optimize solver) m).

(** Any number of calls, one after the other. *)
Inductive extends : Model -> Model -> Prop :=
  | extends_refl m : extends m m
  | extends_call m1 m2 m3 : extends m1 m2 -> call m2 m3 -> extends m1 m3.

(** A vector of values with the value of column [y] replaced. *)
Fixpoint upd (a : list Q) (y : Var) (q : Q) : list Q :=
  match a, y with
  | [], _ => []
  | _ :: a', O => q :: a'
  | v :: a', S y' => v :: upd a' y' q
  end.

(** The expression has a term in column [y]. *)
Definition mentions (e : LinExpr) (y : Var) : bool :=
  existsb (fun t : Q * Var => Nat.eqb (snd t) y) (terms e).

(** A solver that answers the Wyndor model with its optimum, the numbers
    written as other fractions. *)
Definition wyndor_oracle' : solver_t :=
  fun _ _ _ _ => (OPTIMAL, Some (mkSolution [4 # 2; 12 # 2] (72 # 2))).

(** The values a model stores: those of its solution, none without one. *)
Definition stored (m : Model) : list Q :=
  match Sol m with
  | Some s => X s
  | None => []
  end.

(** The line a report cell prints for an item. *)
Definition shown_item (m : Model) (it : string * Var) : line :=
  Shown (fst it) (value (stored m) (snd it)).

(** The Wyndor model with the status optimal and a solution that stores a
    value for its first column only. *)
Definition half_solved : Model :=
  mkModel "Wyndor_Glass_Co" (vars Wyndor.model) (objective Wyndor.model)
    MAXIMIZE (constrs Wyndor.model) OPTIMAL (Some (mkSolution [2] 6)).

(** Cells that build a model without feasible point: one column [x] with
    [x <= 1] and [x >= 2]. *)
Definition contradictory_cells : state Model Var :=
  x <- addVar "x" CONTINUOUS (Some 0) ;;
  setObjective (var x) MAXIMIZE ;;
  addConstr (var x <=: const 1) "at_most_1" ;;
  addConstr (var x >=: const 2) "at_least_2" ;;
  ret x.

Definition contradictory : Model :=
  Eval vm_compute in execState contradictory_cells (newModel "contradictory").

(** ** The contract of the solver *)

(** The solver is exact: whatever problem data it is handed, the status it
    answers is [OPTIMAL] exactly when that problem has an optimum, and the
    solution it answers then is an optimum of that problem with its
    objective value.  The contract is on the solver as a function of the
    problem data, before any model stores its answer. *)
Definition exact_solver (solver : solver_t) : Prop :=
  forall (name : string) (vs : list VarInfo) (e : LinExpr) (s : objsense)
         (cs : list Constr),
    exact (mkModel name vs e s cs
             (fst (solver vs e s cs)) (snd (solver vs e s cs))).

(** The lower bound a call of [addVar] declares: the keyword [lb], and the
    default when the keyword is left out. *)
Definition declared_lb (lb : option Q) : Q :=
  match lb with
  | Some l => l
  | None => default_lb
  end.

(** An exact solver, given by choice and not by an algorithm: it answers
    an optimum of the problem when there is one, and [INFEASIBLE] without
    solution otherwise. *)
Definition ideal_solver : solver_t :=
  fun vs e s cs =>
    match
      excluded_middle_informative
        (exists a, is_optimum (mkModel "" vs e s cs LOADED None) a)
    with
    | left H =>
        let a := proj1_sig (constructive_indefinite_description _ H) in
        (OPTIMAL, Some (mkSolution a (eval e a)))
    | right _ => (INFEASIBLE, None)
    end.


(** ** Proof tools *)

(** Unfold the meaning of a model down to inequalities between rationals. *)
Ltac unfold_sem :=
  cbv beta iota delta
    [feasible domains all_hold holds in_domain in_bounds objval no_worse
     eval eval_terms value nth
     vars constrs objective ModelSense lhs rhs sense terms constant
     LB UB VType].

Ltac unfold_sem_in H :=
  cbv beta iota delta
    [feasible domains all_hold holds in_domain in_bounds objval no_worse
     eval eval_terms value nth
     vars constrs objective ModelSense lhs rhs sense terms constant
     LB UB VType] in H.

(** ** The checkers decide the predicates *)

Lemma Qred_inject_Z (z : Z) : Qred (inject_Z z) = inject_Z z.
Proof.
  unfold Qred, inject_Z.
  pose proof (Z.ggcd_gcd z 1) as Hg.
  pose proof (Z.ggcd_correct_divisors z 1) as Hd.
  destruct (Z.ggcd z 1) as [g [aa bb]]. simpl in *.
  rewrite Z.gcd_1_r in Hg. subst g. destruct Hd as [Ha Hb].
  rewrite Z.mul_1_l in Ha, Hb. subst aa bb. reflexivity.
Qed.

Lemma integralb_spec (q : Q) : integralb q = true <-> integral q.
Proof.
  unfold integralb, integral. rewrite Pos.eqb_eq. split.
  - intros H. exists (Qnum (Qred q)).
    rewrite <- (Qred_correct q) at 1.
    destruct (Qred q) as [n d]. simpl in *. subst d. reflexivity.
  - intros [z Hz]. apply Qred_complete in Hz. rewrite Hz.
    rewrite Qred_inject_Z. reflexivity.
Qed.

Lemma in_boundsb_spec (i : VarInfo) (q : Q) :
  in_boundsb i q = true <-> in_bounds i q.
Proof.
  unfold in_boundsb, in_bounds. rewrite andb_true_iff, Qle_bool_iff.
  destruct (UB i); [rewrite Qle_bool_iff |]; intuition.
Qed.

Lemma in_domainb_spec (i : VarInfo) (q : Q) :
  in_domainb i q = true <-> in_domain i q.
Proof.
  unfold in_domainb, in_domain.
  rewrite andb_true_iff, in_boundsb_spec.
  destruct (VType i); rewrite ?integralb_spec; intuition.
Qed.

Lemma domainsb_spec (vs : list VarInfo) (a : list Q) :
  domainsb vs a = true <-> domains vs a.
Proof.
  revert a. induction vs as [| i vs IH]; intros [| q a]; simpl;
    try (split; [discriminate | contradiction]).
  - intuition.
  - rewrite andb_true_iff, in_domainb_spec, IH. reflexivity.
Qed.

Lemma holdsb_spec (a : list Q) (c : Constr) :
  holdsb a c = true <-> holds a c.
Proof.
  unfold holdsb, holds.
  destruct (sense c); [apply Qle_bool_iff | apply Qeq_bool_iff | apply Qle_bool_iff].
Qed.

Lemma all_hold_forallb (a : list Q) (cs : list Constr) :
  forallb (holdsb a) cs = true <-> all_hold a cs.
Proof.
  induction cs as [| c cs IH]; simpl.
  - intuition.
  - rewrite andb_true_iff, holdsb_spec, IH. reflexivity.
Qed.

Lemma feasibleb_spec (m : Model) (a : list Q) :
  feasibleb m a = true <-> feasible m a.
Proof.
  unfold feasibleb, feasible.
  rewrite andb_true_iff, domainsb_spec, all_hold_forallb. reflexivity.
Qed.

Lemma domains_length (vs : list VarInfo) (a : list Q) :
  domains vs a -> List.length a = List.length vs.
Proof.
  revert a. induction vs as [| i vs IH]; intros [| q a]; simpl;
    try contradiction; auto.
  intros [_ H]. f_equal. auto.
Qed.

(** ** The cells build the models *)

Example wyndor_model_cells :
  Wyndor.model = execState Wyndor.cells (newModel "Wyndor_Glass_Co").
Proof. reflexivity. Qed.

Example radiation_model_cells :
  Radiation.model
    = execState Radiation.cells (newModel "Radiation_Therapy_Optimization") /\
  Radiation.model
    = execState (Radiation.cells_linking Radiation.handles)
        Radiation.model_unlinked.
Proof. split; reflexivity. Qed.

(** The sizes the solver logs: 3 rows and 2 columns, 5 rows and 4 columns. *)
Example model_sizes :
  (List.length (constrs Wyndor.model), List.length (vars Wyndor.model))
    = (3%nat, 2%nat) /\
  (List.length (constrs Radiation.model), List.length (vars Radiation.model))
    = (5%nat, 4%nat).
Proof. split; reflexivity. Qed.

Example wyndor_points :
  feasibleb Wyndor.model [2; 6] = true /\
  feasibleb Wyndor.model [4; 3] = true /\
  feasibleb Wyndor.model [4; 6] = false /\
  feasibleb Wyndor.model [2; 6; 0] = false.
Proof. repeat split. Qed.

Example radiation_points :
  feasibleb Radiation.model [7.5; 4.5; 1; 1] = true /\
  feasibleb Radiation.model [6; 6; 1; 1] = true /\
  feasibleb Radiation.model [7.5; 4.5; 1; 0] = false /\
  feasibleb Radiation.model [7.5; 4.5; 1; 0.5] = false /\
  feasibleb Radiation.model_unlinked [7.5; 4.5; 0; 0] = true.
Proof. repeat split. Qed.

Example wyndor_run :
  wyndor_notebook wyndor_oracle = (inr tt, wyndor_output 2 6 36).
Proof. reflexivity. Qed.

Example radiation_run :
  radiation_notebook radiation_oracle
    = (inr tt, radiation_output 7.5 4.5 1 1 5.25).
Proof. reflexivity. Qed.

Example wyndor_run_infeasible :
  wyndor_notebook refusing_solver
    = (inr tt, [Text "No optimal solution found."]).
Proof. reflexivity. Qed.

(** Reading [x1.x] from a model without solution raises, after the
    heading has been printed. *)
Example report_without_solution :
  run (wyndor_report
         (mkModel "Wyndor_Glass_Co" (vars Wyndor.model)
            (objective Wyndor.model) MAXIMIZE (constrs Wyndor.model)
            OPTIMAL None))
    = (inl (AttributeError "X"), [Text "Optimal solution found:"]).
Proof. reflexivity. Qed.

(** ** Solving leaves the problem as it is *)

Lemma optimize_vars solver m : vars (execState (optimize solver) m) = vars m.
Proof. reflexivity. Qed.

Lemma optimize_feasible solver m a :
  feasible (execState (optimize solver) m) a <-> feasible m a.
Proof. reflexivity. Qed.

Lemma optimize_is_optimum solver m a :
  is_optimum (execState (optimize solver) m) a <-> is_optimum m a.
Proof. reflexivity. Qed.

Lemma optimize_objval solver m a :
  objval (execState (optimize solver) m) a = objval m a.
Proof. reflexivity. Qed.

(** An exact solve of a problem with an optimum stores an optimum. *)
Lemma exact_optimum solver m a :
  is_optimum m a ->
  exact (execState (optimize solver) m) ->
  exists s,
    Status (execState (optimize solver) m) = OPTIMAL /\
    Sol (execState (optimize solver) m) = Some s /\
    is_optimum m (X s) /\ ObjVal s == objval m (X s).
Proof.
  intros Ha [Hc Hs].
  assert (Hst : Status (execState (optimize solver) m) = OPTIMAL).
  { apply Hc. exists a. exact Ha. }
  destruct (Hs Hst) as (s & Hsol & Hopt & Hobj).
  exists s. auto.
Qed.

(** ** The Wyndor Glass Co. problem *)

Lemma wyndor_feasible_iff a :
  feasible Wyndor.model a <->
  exists x1 x2,
    a = [x1; x2] /\ 0 <= x1 /\ 0 <= x2 /\
    x1 <= 4 /\ 2 * x2 <= 12 /\ 3 * x1 + 2 * x2 <= 18.
Proof.
  split.
  - intros H. pose proof (domains_length _ _ (proj1 H)) as Hl.
    destruct a as [| x1 [| x2 [| ? ?]]]; try discriminate Hl.
    unfold Wyndor.model in H. unfold_sem_in H.
    exists x1, x2. repeat split; lra.
  - intros (x1 & x2 & -> & H). unfold Wyndor.model. unfold_sem.
    repeat split; lra.
Qed.

Lemma wyndor_objval x1 x2 : objval Wyndor.model [x1; x2] == 3 * x1 + 5 * x2.
Proof. unfold Wyndor.model. unfold_sem. lra. Qed.

Lemma wyndor_optimum : is_optimum Wyndor.model [2; 6].
Proof.
  split.
  - apply feasibleb_spec. vm_compute. reflexivity.
  - intros b Hb. apply wyndor_feasible_iff in Hb.
    destruct Hb as (x1 & x2 & -> & H).
    change (ModelSense Wyndor.model) with MAXIMIZE. unfold no_worse.
    rewrite !wyndor_objval. lra.
Qed.

Lemma wyndor_unique a :
  feasible Wyndor.model a -> objval Wyndor.model a == 36 ->
  same_values a [2; 6].
Proof.
  intros Hf Ho. apply wyndor_feasible_iff in Hf.
  destruct Hf as (x1 & x2 & -> & H). rewrite wyndor_objval in Ho.
  repeat constructor; lra.
Qed.

Lemma wyndor_optimum_unique a :
  is_optimum Wyndor.model a -> same_values a [2; 6].
Proof.
  intros [Hf Hbest]. apply wyndor_unique; [exact Hf |].
  pose proof (Hbest _ (proj1 wyndor_optimum)) as H1.
  pose proof (proj2 wyndor_optimum _ Hf) as H2.
  change (ModelSense Wyndor.model) with MAXIMIZE in H1, H2.
  unfold no_worse in H1, H2.
  rewrite wyndor_objval in H1, H2. lra.
Qed.

(** ** The solver contract and the solve *)

(** [optimize] hands the solver the problem data of the model and stores
    its answer: with an exact solver the model it leaves is exact. *)
Lemma exact_solver_optimize (solver : solver_t) (m : Model) :
  exact_solver solver -> exact (execState (optimize solver) m).
Proof.
  intros H.
  exact (H (ModelName m) (vars m) (objective m) (ModelSense m) (constrs m)).
Qed.

Lemma ideal_solver_exact : exact_solver ideal_solver.
Proof.
  intros name vs e s cs. unfold ideal_solver.
  destruct (excluded_middle_informative
              (exists a, is_optimum (mkModel "" vs e s cs LOADED None) a))
    as [H | H].
  - constructor.
    + reflexivity.
    + intros _.
      destruct (constructive_indefinite_description _ H) as [a Ha]. simpl.
      exists (mkSolution a (eval e a)). split; [reflexivity |].
      split; [exact Ha | reflexivity].
  - constructor.
    + intros Hex. exfalso. exact (H Hex).
    + discriminate.
Qed.

(** What an exact solve of the Wyndor model stores. *)
Lemma wyndor_exact_answer (solver : solver_t) :
  exact (execState (optimize solver) Wyndor.model) ->
  exists v1 v2 z,
    Status (execState (optimize solver) Wyndor.model) = OPTIMAL /\
    Sol (execState (optimize solver) Wyndor.model)
      = Some (mkSolution [v1; v2] z) /\
    v1 == 2 /\ v2 == 6 /\ z == 36.
Proof.
  intros Hex.
  destruct (exact_optimum solver _ _ wyndor_optimum Hex)
    as ([xs z] & Hst & Hsol & Hopt & Hobj).
  simpl in Hopt, Hobj.
  pose proof (wyndor_optimum_unique _ Hopt) as Hu.
  inversion Hu as [| v1 ? a' ? H1 Hu' ]; subst.
  inversion Hu' as [| v2 ? a'' ? H2 Hu'' ]; subst.
  inversion Hu''; subst.
  exists v1, v2, z. repeat split; auto.
  rewrite Hobj, wyndor_objval. lra.
Qed.

(** C1.  Wyndor Glass Co.: maximize 3 x1 + 5 x2 subject to x1 <= 4,
    2 x2 <= 12, 3 x1 + 2 x2 <= 18 and x1, x2 >= 0.  With an exact solver,
    solving the notebook's model ends with the status optimal, the values
    stored are x1 = 2 and x2 = 6, the objective value is 36, and the
    notebook prints these three numbers behind "Optimal solution found:". *)
Theorem wyndor_solve (solver : solver_t) :
  exact_solver solver ->
  exists v1 v2 z,
    Status (execState (optimize solver) Wyndor.model) = OPTIMAL /\
    Sol (execState (optimize solver) Wyndor.model)
      = Some (mkSolution [v1; v2] z) /\
    v1 == 2 /\ v2 == 6 /\ z == 36 /\
    wyndor_notebook solver = (inr tt, wyndor_output v1 v2 z).
Proof.
  intros Hsolver.
  pose proof (exact_solver_optimize solver Wyndor.model Hsolver) as Hex.
  destruct (wyndor_exact_answer solver Hex)
    as (v1 & v2 & z & Hst & Hsol & H1 & H2 & Hz).
  exists v1, v2, z. repeat split; auto.
  unfold wyndor_notebook, wyndor_report, report, print_values, getX, getObjVal.
  rewrite Hst, Hsol. reflexivity.
Qed.

Lemma wyndor_oracle_exact :
  exact (execState (optimize wyndor_oracle) Wyndor.model).
Proof.
  constructor.
  - reflexivity.
  - intros _. exists (mkSolution [2; 6] 36). split; [reflexivity |].
    split; [exact wyndor_optimum | vm_compute; reflexivity].
Qed.

Lemma wyndor_solve_witness :
  exists v1 v2 z,
    Status (execState (optimize ideal_solver) Wyndor.model) = OPTIMAL /\
    Sol (execState (optimize ideal_solver) Wyndor.model)
      = Some (mkSolution [v1; v2] z) /\
    v1 == 2 /\ v2 == 6 /\ z == 36 /\
    wyndor_notebook ideal_solver = (inr tt, wyndor_output v1 v2 z).
Proof. exact (wyndor_solve ideal_solver ideal_solver_exact). Defined.

(** ** The Radiation Therapy problem *)

Lemma binary_cases (y : Q) :
  0 <= y <= 1 -> integral y -> y == 0 \/ y == 1.
Proof.
  intros [H0 H1] [z Hz]. rewrite Hz in H0, H1.
  change 0 with (inject_Z 0) in H0. change 1 with (inject_Z 1) in H1.
  rewrite <- Zle_Qle in H0, H1.
  assert (z = 0 \/ z = 1)%Z as [-> | ->] by lia; [left | right]; exact Hz.
Qed.

Lemma binary_integral (y : Q) : y == 0 \/ y == 1 -> 0 <= y <= 1 /\ integral y.
Proof.
  intros [H | H]; (split; [lra |]); [exists 0%Z | exists 1%Z]; exact H.
Qed.

Lemma radiation_unlinked_feasible_iff a :
  feasible Radiation.model_unlinked a <->
  exists x1 x2 y1 y2,
    a = [x1; x2; y1; y2] /\ 0 <= x1 /\ 0 <= x2 /\
    (y1 == 0 \/ y1 == 1) /\ (y2 == 0 \/ y2 == 1) /\
    0.3 * x1 + 0.1 * x2 <= 2.7 /\
    0.5 * x1 + 0.5 * x2 == 6 /\
    6 <= 0.6 * x1 + 0.4 * x2.
Proof.
  split.
  - intros H. pose proof (domains_length _ _ (proj1 H)) as Hl.
    destruct a as [| x1 [| x2 [| y1 [| y2 [| ? ?]]]]]; try discriminate Hl.
    unfold Radiation.model_unlinked in H. unfold_sem_in H.
    destruct H as ((Hx1 & Hx2 & [Hy1 Iy1] & [Hy2 Iy2] & _) & Hc).
    exists x1, x2, y1, y2.
    pose proof (binary_cases _ Hy1 Iy1). pose proof (binary_cases _ Hy2 Iy2).
    repeat split; auto; lra.
  - intros (x1 & x2 & y1 & y2 & -> & Hx1 & Hx2 & Hy1 & Hy2 & H).
    apply binary_integral in Hy1, Hy2.
    unfold Radiation.model_unlinked. unfold_sem.
    repeat split; try tauto; lra.
Qed.

Lemma radiation_feasible_iff a :
  feasible Radiation.model a <->
  exists x1 x2 y1 y2,
    a = [x1; x2; y1; y2] /\ 0 <= x1 /\ 0 <= x2 /\
    (y1 == 0 \/ y1 == 1) /\ (y2 == 0 \/ y2 == 1) /\
    0.3 * x1 + 0.1 * x2 <= 2.7 /\
    0.5 * x1 + 0.5 * x2 == 6 /\
    6 <= 0.6 * x1 + 0.4 * x2 /\
    x1 <= 10 * y1 /\ x2 <= 10 * y2.
Proof.
  split.
  - intros H. pose proof (domains_length _ _ (proj1 H)) as Hl.
    destruct a as [| x1 [| x2 [| y1 [| y2 [| ? ?]]]]]; try discriminate Hl.
    unfold Radiation.model in H. unfold_sem_in H.
    destruct H as ((Hx1 & Hx2 & [Hy1 Iy1] & [Hy2 Iy2] & _) & Hc).
    exists x1, x2, y1, y2.
    pose proof (binary_cases _ Hy1 Iy1). pose proof (binary_cases _ Hy2 Iy2).
    repeat split; auto; lra.
  - intros (x1 & x2 & y1 & y2 & -> & Hx1 & Hx2 & Hy1 & Hy2 & H).
    apply binary_integral in Hy1, Hy2.
    unfold Radiation.model. unfold_sem.
    repeat split; try tauto; lra.
Qed.

Lemma radiation_objval x1 x2 y1 y2 :
  objval Radiation.model [x1; x2; y1; y2] == 0.4 * x1 + 0.5 * x2.
Proof. unfold Radiation.model. unfold_sem. lra. Qed.

(** In a feasible point both placement decisions are taken. *)
Lemma radiation_feasible_y x1 x2 y1 y2 :
  feasible Radiation.model [x1; x2; y1; y2] -> y1 == 1 /\ y2 == 1.
Proof.
  intros H. apply radiation_feasible_iff in H.
  destruct H as (? & ? & ? & ? & E & Hx1 & Hx2 & Hy1 & Hy2 & H).
  injection E as <- <- <- <-.
  split; [destruct Hy1 as [Hy | Hy] | destruct Hy2 as [Hy | Hy]];
    try exact Hy; exfalso; lra.
Qed.

Lemma radiation_optimum : is_optimum Radiation.model [7.5; 4.5; 1; 1].
Proof.
  split.
  - apply feasibleb_spec. vm_compute. reflexivity.
  - intros b Hb. apply radiation_feasible_iff in Hb.
    destruct Hb as (x1 & x2 & y1 & y2 & -> & H).
    change (ModelSense Radiation.model) with MINIMIZE. unfold no_worse.
    rewrite !radiation_objval. lra.
Qed.

Lemma radiation_unique a :
  feasible Radiation.model a -> objval Radiation.model a == 5.25 ->
  same_values a [7.5; 4.5; 1; 1].
Proof.
  intros Hf Ho. pose proof Hf as Hf'. apply radiation_feasible_iff in Hf.
  destruct Hf as (x1 & x2 & y1 & y2 & -> & H).
  destruct (radiation_feasible_y _ _ _ _ Hf') as [Hy1 Hy2].
  rewrite radiation_objval in Ho.
  repeat constructor; try assumption; lra.
Qed.

Lemma radiation_optimum_unique a :
  is_optimum Radiation.model a -> same_values a [7.5; 4.5; 1; 1].
Proof.
  intros [Hf Hbest]. apply radiation_unique; [exact Hf |].
  pose proof (Hbest _ (proj1 radiation_optimum)) as H1.
  pose proof (proj2 radiation_optimum _ Hf) as H2.
  change (ModelSense Radiation.model) with MINIMIZE in H1, H2.
  unfold no_worse in H1, H2.
  rewrite radiation_objval in H1, H2. lra.
Qed.

(** What an exact solve of the Radiation Therapy model stores. *)
Lemma radiation_exact_answer (solver : solver_t) :
  exact (execState (optimize solver) Radiation.model) ->
  exists v1 v2 w1 w2 z,
    Status (execState (optimize solver) Radiation.model) = OPTIMAL /\
    Sol (execState (optimize solver) Radiation.model)
      = Some (mkSolution [v1; v2; w1; w2] z) /\
    v1 == 7.5 /\ v2 == 4.5 /\ w1 == 1 /\ w2 == 1 /\ z == 5.25.
Proof.
  intros Hex.
  destruct (exact_optimum solver _ _ radiation_optimum Hex)
    as ([xs z] & Hst & Hsol & Hopt & Hobj).
  simpl in Hopt, Hobj.
  pose proof (radiation_optimum_unique _ Hopt) as Hu.
  inversion Hu as [| v1 ? ? ? H1 Hu1 ]; subst.
  inversion Hu1 as [| v2 ? ? ? H2 Hu2 ]; subst.
  inversion Hu2 as [| w1 ? ? ? H3 Hu3 ]; subst.
  inversion Hu3 as [| w2 ? ? ? H4 Hu4 ]; subst.
  inversion Hu4; subst.
  exists v1, v2, w1, w2, z. repeat split; auto.
  rewrite Hobj, radiation_objval. lra.
Qed.

(** C2.  Radiation Therapy: minimize 0.4 x1 + 0.5 x2 subject to the three
    dose constraints, the two linking constraints, x1, x2 >= 0 and y1, y2
    binary.  With an exact solver, solving the notebook's model ends with
    the status optimal, the values stored are x1 = 7.5, x2 = 4.5, y1 = 1
    and y2 = 1, the objective value is 5.25, and the notebook prints these
    numbers behind "Optimal solution found:". *)
Theorem radiation_solve (solver : solver_t) :
  exact_solver solver ->
  exists v1 v2 w1 w2 z,
    Status (execState (optimize solver) Radiation.model) = OPTIMAL /\
    Sol (execState (optimize solver) Radiation.model)
      = Some (mkSolution [v1; v2; w1; w2] z) /\
    v1 == 7.5 /\ v2 == 4.5 /\ w1 == 1 /\ w2 == 1 /\ z == 5.25 /\
    radiation_notebook solver = (inr tt, radiation_output v1 v2 w1 w2 z).
Proof.
  intros Hsolver.
  pose proof (exact_solver_optimize solver Radiation.model Hsolver) as Hex.
  destruct (radiation_exact_answer solver Hex)
    as (v1 & v2 & w1 & w2 & z & Hst & Hsol & H1 & H2 & H3 & H4 & Hz).
  exists v1, v2, w1, w2, z. repeat split; auto.
  unfold radiation_notebook, radiation_report, report, print_values,
    getX, getObjVal.
  rewrite Hst, Hsol. reflexivity.
Qed.

Lemma radiation_oracle_exact :
  exact (execState (optimize radiation_oracle) Radiation.model).
Proof.
  constructor.
  - reflexivity.
  - intros _. exists (mkSolution [7.5; 4.5; 1; 1] 5.25).
    split; [reflexivity |].
    split; [exact radiation_optimum | vm_compute; reflexivity].
Qed.

Lemma radiation_solve_witness :
  exists v1 v2 w1 w2 z,
    Status (execState (optimize ideal_solver) Radiation.model) = OPTIMAL /\
    Sol (execState (optimize ideal_solver) Radiation.model)
      = Some (mkSolution [v1; v2; w1; w2] z) /\
    v1 == 7.5 /\ v2 == 4.5 /\ w1 == 1 /\ w2 == 1 /\ z == 5.25 /\
    radiation_notebook ideal_solver
      = (inr tt, radiation_output v1 v2 w1 w2 z).
Proof. exact (radiation_solve ideal_solver ideal_solver_exact). Defined.

(** C3.  The Big-M constant: in every feasible point of the Radiation
    Therapy problem without its two linking constraints (x1, x2 >= 0 and
    the three dose constraints), x1 <= M and x2 <= M for M = 10; so the
    linking constraints rule out none of these (x1, x2): with both binary
    variables at 1 the point is feasible in the full model. *)
Theorem big_M_valid (a : list Q) :
  feasible Radiation.model_unlinked a ->
  value a Radiation.x1 <= Radiation.M /\
  value a Radiation.x2 <= Radiation.M /\
  feasible Radiation.model
    [value a Radiation.x1; value a Radiation.x2; 1; 1].
Proof.
  intros H. apply radiation_unlinked_feasible_iff in H.
  destruct H as (x1 & x2 & y1 & y2 & -> & Hx1 & Hx2 & Hy1 & Hy2 & H).
  change (value [x1; x2; y1; y2] Radiation.x1) with x1.
  change (value [x1; x2; y1; y2] Radiation.x2) with x2.
  unfold Radiation.M. split; [lra | split; [lra |]].
  apply radiation_feasible_iff. exists x1, x2, 1, 1.
  split; [reflexivity |]. repeat split; try lra; right; reflexivity.
Qed.

Lemma big_M_valid_witness :
  value [7.5; 4.5; 0; 0] Radiation.x1 <= Radiation.M /\
  value [7.5; 4.5; 0; 0] Radiation.x2 <= Radiation.M /\
  feasible Radiation.model
    [value [7.5; 4.5; 0; 0] Radiation.x1;
     value [7.5; 4.5; 0; 0] Radiation.x2; 1; 1].
Proof.
  apply (big_M_valid [7.5; 4.5; 0; 0]).
  apply feasibleb_spec. vm_compute. reflexivity.
Defined.

(** C9.  In every feasible point of the Radiation Therapy model as the
    notebook builds it, both binary variables are 1: the constraints give
    6 <= x1 <= 7.5 and x2 = 12 - x1 > 0, and the linking constraints then
    force y1 = 1 and y2 = 1. *)
Theorem radiation_binaries_forced (a : list Q) :
  feasible Radiation.model a ->
  value a Radiation.y1 == 1 /\ value a Radiation.y2 == 1 /\
  6 <= value a Radiation.x1 <= 7.5 /\
  value a Radiation.x2 == 12 - value a Radiation.x1 /\
  0 < value a Radiation.x2.
Proof.
  intros H. pose proof H as H'. apply radiation_feasible_iff in H'.
  destruct H' as (x1 & x2 & y1 & y2 & -> & Hx1 & Hx2 & _ & _ & Hc).
  destruct (radiation_feasible_y _ _ _ _ H) as [Hy1 Hy2].
  change (value [x1; x2; y1; y2] Radiation.x1) with x1.
  change (value [x1; x2; y1; y2] Radiation.x2) with x2.
  change (value [x1; x2; y1; y2] Radiation.y1) with y1.
  change (value [x1; x2; y1; y2] Radiation.y2) with y2.
  repeat split; try assumption; lra.
Qed.

Lemma radiation_binaries_forced_witness :
  value [6; 6; 1; 1] Radiation.y1 == 1 /\
  value [6; 6; 1; 1] Radiation.y2 == 1 /\
  6 <= value [6; 6; 1; 1] Radiation.x1 <= 7.5 /\
  value [6; 6; 1; 1] Radiation.x2 == 12 - value [6; 6; 1; 1] Radiation.x1 /\
  0 < value [6; 6; 1; 1] Radiation.x2.
Proof.
  apply (radiation_binaries_forced [6; 6; 1; 1]).
  apply feasibleb_spec. vm_compute. reflexivity.
Defined.

Lemma same_values_sym (a b : list Q) : same_values a b -> same_values b a.
Proof.
  induction 1; constructor; [symmetry; assumption | assumption].
Qed.

Lemma same_values_trans (a b c : list Q) :
  same_values a b -> same_values b c -> same_values a c.
Proof.
  intros Hab. revert c. induction Hab as [| x y a b Hxy _ IH]; intros c Hbc.
  - inversion Hbc. constructor.
  - inversion Hbc as [| ? z ? c' Hyz Hbc']; subst.
    constructor; [rewrite Hxy; exact Hyz | exact (IH _ Hbc')].
Qed.

(** Two exact solves of one model with a single optimum agree. *)
Lemma exact_solves_agree (m : Model) (opt : list Q) (solver1 solver2 : solver_t) :
  is_optimum m opt ->
  (forall a, is_optimum m a -> same_values a opt) ->
  exact (execState (optimize solver1) m) ->
  exact (execState (optimize solver2) m) ->
  exists s1 s2,
    Status (execState (optimize solver1) m) = OPTIMAL /\
    Status (execState (optimize solver2) m) = OPTIMAL /\
    Sol (execState (optimize solver1) m) = Some s1 /\
    Sol (execState (optimize solver2) m) = Some s2 /\
    same_values (X s1) (X s2) /\ ObjVal s1 == ObjVal s2.
Proof.
  intros Hopt Huniq H1 H2.
  destruct (exact_optimum solver1 m opt Hopt H1) as (s1 & St1 & So1 & O1 & V1).
  destruct (exact_optimum solver2 m opt Hopt H2) as (s2 & St2 & So2 & O2 & V2).
  exists s1, s2. repeat split; auto.
  - eapply same_values_trans; [exact (Huniq _ O1) |].
    apply same_values_sym. exact (Huniq _ O2).
  - rewrite V1, V2.
    destruct O1 as [F1 B1]. destruct O2 as [F2 B2].
    specialize (B1 _ F2). specialize (B2 _ F1).
    destruct (ModelSense m); unfold no_worse in B1, B2; lra.
Qed.

(** C10.  Both problems have one optimal solution: a feasible point of the
    Wyndor model with objective value 36 is (2, 6), and a feasible point of
    the Radiation Therapy model with objective value 5.25 is
    (7.5, 4.5, 1, 1); so every optimum of either model is that point, and
    the values stored do not depend on the solver: any two exact solves
    store the same status, the same values and the same objective value. *)
Theorem optimum_unique :
  (forall a, feasible Wyndor.model a -> objval Wyndor.model a == 36 ->
             same_values a [2; 6]) /\
  (forall a, feasible Radiation.model a ->
             objval Radiation.model a == 5.25 ->
             same_values a [7.5; 4.5; 1; 1]) /\
  (forall a, is_optimum Wyndor.model a -> same_values a [2; 6]) /\
  (forall a, is_optimum Radiation.model a ->
             same_values a [7.5; 4.5; 1; 1]) /\
  (forall m solver1 solver2,
     m = Wyndor.model \/ m = Radiation.model ->
     exact (execState (optimize solver1) m) ->
     exact (execState (optimize solver2) m) ->
     exists s1 s2,
       Status (execState (optimize solver1) m) = OPTIMAL /\
       Status (execState (optimize solver2) m) = OPTIMAL /\
       Sol (execState (optimize solver1) m) = Some s1 /\
       Sol (execState (optimize solver2) m) = Some s2 /\
       same_values (X s1) (X s2) /\ ObjVal s1 == ObjVal s2).
Proof.
  split; [exact wyndor_unique |].
  split; [exact radiation_unique |].
  split; [exact wyndor_optimum_unique |].
  split; [exact radiation_optimum_unique |].
  intros m solver1 solver2 [-> | ->].
  - exact (exact_solves_agree _ _ _ _ wyndor_optimum wyndor_optimum_unique).
  - exact (exact_solves_agree _ _ _ _ radiation_optimum radiation_optimum_unique).
Qed.

Lemma optimum_unique_witness :
  same_values [4 # 2; 6] [2; 6] /\
  same_values [15 # 2; 9 # 2; 2 # 2; 1] [7.5; 4.5; 1; 1].
Proof.
  split.
  - apply (proj1 optimum_unique [4 # 2; 6]).
    + apply feasibleb_spec. vm_compute. reflexivity.
    + vm_compute. reflexivity.
  - apply (proj1 (proj2 optimum_unique) [15 # 2; 9 # 2; 2 # 2; 1]).
    + apply feasibleb_spec. vm_compute. reflexivity.
    + vm_compute. reflexivity.
Defined.

(** ** Running a report cell *)

Lemma run_bind {A B : Type} (c : io A) (k : A -> io B) (out : list line) :
  runState (unEitherT (bind c k)) out =
  match runState (unEitherT c) out with
  | (inl e, out') => (inl e, out')
  | (inr a, out') => runState (unEitherT (k a)) out'
  end.
Proof.
  simpl. destruct (runState (unEitherT c) out) as [[e | a] out']; reflexivity.
Qed.

Lemma run_print (l : line) (out : list line) :
  runState (unEitherT (print l)) out = (inr tt, (out ++ [l])%list).
Proof. reflexivity. Qed.

Lemma status_eqb_spec (s t : status) : status_eqb s t = true <-> s = t.
Proof. destruct s, t; simpl; split; congruence. Qed.

Lemma run_getX (m : Model) (s : Solution) (x : Var) (out : list line) :
  Sol m = Some s -> (x < List.length (X s))%nat ->
  runState (unEitherT (getX m x)) out = (inr (value (X s) x), out).
Proof.
  intros Hs Hx. unfold getX, value. rewrite Hs.
  destruct (nth_error (X s) x) as [q |] eqn:E.
  - rewrite (nth_error_nth _ _ 0 E). reflexivity.
  - apply nth_error_None in E. lia.
Qed.

Lemma run_print_values (m : Model) (s : Solution) items (out : list line) :
  Sol m = Some s ->
  Forall (fun it : string * Var => (snd it < List.length (X s))%nat) items ->
  runState (unEitherT (print_values m items)) out =
  (inr tt,
   (out ++ map (fun it => Shown (fst it) (value (X s) (snd it))) items)%list).
Proof.
  intros Hs Hall. revert out.
  induction Hall as [| [label x] rest Hx _ IH]; intros out.
  - simpl. rewrite app_nil_r. reflexivity.
  - change (print_values m ((label, x) :: rest))
      with (bind (getX m x)
              (fun v => bind (print (Shown label v))
                          (fun _ => print_values m rest))).
    rewrite run_bind, (run_getX m s x out Hs Hx).
    rewrite run_bind, run_print, IH.
    simpl. rewrite <- app_assoc. reflexivity.
Qed.

(** C6.  The report cell.  For a status other than optimal (infeasible
    and unbounded among them) it prints the one line that says no optimal
    solution was found and ends normally, without raising.  For the status
    optimal, with the solution a solve stores, it prints the heading, one
    line per variable with its value, and the objective value.  A line that
    shows a value is printed only when the status is optimal. *)
Theorem report_outcome (found : string) (items : list (string * Var))
    (objlabel none : string) (m : Model) :
  (Status m <> OPTIMAL ->
   run (report found items objlabel none m) = (inr tt, [Text none])) /\
  (forall s,
     Status m = OPTIMAL -> Sol m = Some s ->
     Forall (fun it : string * Var => (snd it < List.length (X s))%nat) items ->
     run (report found items objlabel none m) =
     (inr tt,
      (Text found
         :: map (fun it => Shown (fst it) (value (X s) (snd it))) items
         ++ [Shown objlabel (ObjVal s)])%list)) /\
  (existsb is_shown (snd (run (report found items objlabel none m))) = true ->
   Status m = OPTIMAL).
Proof.
  repeat split.
  - intros Hne. unfold report.
    destruct (status_eqb (Status m) OPTIMAL) eqn:E.
    + apply status_eqb_spec in E. contradiction.
    + reflexivity.
  - intros s Hst Hs Hall. unfold report, run. rewrite Hst.
    change (status_eqb OPTIMAL OPTIMAL) with true. cbv iota.
    rewrite run_bind, run_print.
    rewrite run_bind, (run_print_values m s items _ Hs Hall).
    unfold getObjVal. rewrite Hs. reflexivity.
  - unfold report.
    destruct (status_eqb (Status m) OPTIMAL) eqn:E.
    + intros _. apply status_eqb_spec. exact E.
    + simpl. discriminate.
Qed.

Lemma report_outcome_witness :
  run (wyndor_report (execState (optimize refusing_solver) Wyndor.model))
    = (inr tt, [Text "No optimal solution found."]) /\
  run (wyndor_report (execState (optimize wyndor_oracle) Wyndor.model))
    = (inr tt, wyndor_output 2 6 36).
Proof.
  split.
  - unfold wyndor_report.
    apply (proj1 (report_outcome _ _ _ _
                    (execState (optimize refusing_solver) Wyndor.model))).
    discriminate.
  - unfold wyndor_report.
    etransitivity.
    + apply (proj1 (proj2 (report_outcome _ _ _ _
                      (execState (optimize wyndor_oracle) Wyndor.model)))
               (mkSolution [2; 6] 36)).
      * reflexivity.
      * reflexivity.
      * repeat constructor.
    + reflexivity.
Defined.

(** ** Values respect the columns' domains *)

Lemma domains_nth (vs : list VarInfo) (a : list Q) (x : Var) (i : VarInfo) :
  domains vs a -> nth_error vs x = Some i -> in_domain i (value a x).
Proof.
  revert a x. induction vs as [| j vs IH]; intros [| q a] x; simpl;
    try contradiction.
  - destruct x; discriminate.
  - intros [Hq Hd]. destruct x as [| x]; simpl.
    + intros [= <-]. exact Hq.
    + intros Hx. exact (IH a x Hd Hx).
Qed.

Lemma addVar_vars name vt lb m :
  exists i,
    vars (execState (addVar name vt lb) m) = (vars m ++ [i])%list /\
    VarName i = name /\ VType i = vt /\ binary_bounded i /\
    (vt <> BINARY ->
     LB i = match lb with Some l => l | None => default_lb end /\ UB i = None).
Proof.
  destruct vt.
  - eexists. split; [reflexivity |]. repeat split; try discriminate.
  - eexists. split; [reflexivity |]. repeat split; try congruence.
    simpl. apply Q.le_max_r.
  - eexists. split; [reflexivity |]. repeat split; try discriminate.
Qed.

(** The calls keep every binary column bounded to [0, 1]. *)
Lemma built_binary_bounded (m : Model) :
  built m -> Forall binary_bounded (vars m).
Proof.
  induction 1 as [name | name vt lb m _ IH | e s m _ IH
                 | tc name m _ IH | solver m _ IH].
  - constructor.
  - destruct (addVar_vars name vt lb m) as (i & -> & _ & _ & Hi & _).
    apply Forall_app. split; [exact IH | constructor; [exact Hi | constructor]].
  - exact IH.
  - exact IH.
  - exact IH.
Qed.

Lemma radiation_built (solver : solver_t) :
  built (execState (optimize solver) Radiation.model).
Proof.
  apply built_optimize.
  change Radiation.model with
    (execState (addConstr (var 1%nat <=: Radiation.M *: 3%nat) "Linking_x2_y2")
    (execState (addConstr (var 0%nat <=: Radiation.M *: 2%nat) "Linking_x1_y1")
    (execState (addConstr (0.6 *: 0%nat +: 0.4 *: 1%nat >=: const 6) "Constraint3")
    (execState (addConstr (0.5 *: 0%nat +: 0.5 *: 1%nat ==: const 6) "Constraint2")
    (execState (addConstr (0.3 *: 0%nat +: 0.1 *: 1%nat <=: const 2.7) "Constraint1")
    (execState (setObjective (0.4 *: 0%nat +: 0.5 *: 1%nat) MINIMIZE)
    (execState (addVar "y2" BINARY None)
    (execState (addVar "y1" BINARY None)
    (execState (addVar "x2" CONTINUOUS (Some 0))
    (execState (addVar "x1" CONTINUOUS (Some 0))
       (newModel "Radiation_Therapy_Optimization"))))))))))).
  repeat constructor.
Qed.

(** ** The builder's declarations *)

Lemma declared_spec (m : Builder.model) (n : string) :
  Builder.declared m n = true <->
  In n (map Builder.name (Builder.variables m)).
Proof.
  unfold Builder.declared. rewrite existsb_exists. split.
  - intros (n' & Hin & Heq). apply String.eqb_eq in Heq. subst n'. exact Hin.
  - intros Hin. exists n. split; [exact Hin | apply String.eqb_refl].
Qed.

(** C4.  Declaring a variable under a name that the Model already has
    fails with DuplicateNameError and leaves the Model, its variables
    among the rest, as it was. *)
Theorem declare_variable_duplicate (m : Builder.model) (n : string)
    (k : Builder.kind) (lb ub : option Q) :
  In n (map Builder.name (Builder.variables m)) ->
  fst (Builder.declare_variable n k lb ub m) = inl Builder.DuplicateNameError /\
  Builder.variables (snd (Builder.declare_variable n k lb ub m))
    = Builder.variables m /\
  snd (Builder.declare_variable n k lb ub m) = m.
Proof.
  intros Hin. apply declared_spec in Hin.
  unfold Builder.declare_variable. rewrite Hin. repeat split.
Qed.

Lemma declare_variable_duplicate_witness :
  fst (Builder.declare_variable "x1" Builder.binary None None one_variable)
    = inl Builder.DuplicateNameError /\
  Builder.variables
    (snd (Builder.declare_variable "x1" Builder.binary None None one_variable))
    = Builder.variables one_variable /\
  snd (Builder.declare_variable "x1" Builder.binary None None one_variable)
    = one_variable.
Proof.
  apply (declare_variable_duplicate one_variable "x1" Builder.binary None None).
  simpl. left. reflexivity.
Defined.

Lemma references_declared (m : Builder.model) (e : Builder.linear_expression) :
  forallb (Builder.declared m) (Builder.references e) = true <->
  forall n, In n (Builder.references e) ->
            In n (map Builder.name (Builder.variables m)).
Proof.
  rewrite forallb_forall. split; intros H n Hn.
  - apply declared_spec. exact (H n Hn).
  - apply declared_spec. exact (H n Hn).
Qed.

Lemma declare_variable_grows n k lb ub m v m' :
  Builder.declare_variable n k lb ub m = (inr v, m') ->
  Builder.variables m' = (Builder.variables m ++ [v])%list /\
  Builder.constraints m' = Builder.constraints m.
Proof.
  unfold Builder.declare_variable.
  destruct (Builder.declared m n); [discriminate |].
  intros [= <- <-]. split; reflexivity.
Qed.

Lemma add_constraint_success e o r cn m c m' :
  Builder.add_constraint e o r cn m = (inr c, m') ->
  c = Builder.mkConstraint e o r cn /\
  forallb (Builder.declared m) (Builder.references e) = true /\
  Builder.variables m' = Builder.variables m /\
  Builder.constraints m' = (Builder.constraints m ++ [c])%list.
Proof.
  unfold Builder.add_constraint.
  destruct (forallb (Builder.declared m) (Builder.references e)); simpl;
    [| discriminate].
  destruct (existsb (String.eqb cn) (map Builder.cname (Builder.constraints m)));
    [discriminate |].
  intros [= <- <-]. repeat split.
Qed.

(** Every Constraint of a reachable Model references declared Variables. *)
Lemma reachable_constraints_declared (m : Builder.model) :
  Builder.reachable m ->
  Forall (fun c =>
            forall n, In n (Builder.references (Builder.expression c)) ->
                      In n (map Builder.name (Builder.variables m)))
         (Builder.constraints m).
Proof.
  induction 1 as [| n k lb ub m v m' _ IH Hd | e d m _ IH
                 | e o r cn m c m' _ IH Ha].
  - constructor.
  - apply declare_variable_grows in Hd. destruct Hd as [Hv Hc].
    rewrite Hc, Hv. eapply Forall_impl; [| exact IH].
    intros c' Hc' x Hx. rewrite map_app. apply in_or_app. left. auto.
  - exact IH.
  - apply add_constraint_success in Ha.
    destruct Ha as (-> & Hall & Hv & Hc). rewrite Hc, Hv.
    apply Forall_app. split; [exact IH |].
    constructor; [| constructor]. simpl.
    apply references_declared. exact Hall.
Qed.

(** C5.  Adding a constraint whose expression references a Variable that
    is not declared in the Model fails with UnknownVariableError and leaves
    the Model, its constraint list among the rest, as it was.  A constraint
    that is added references only Variables declared in the Model, and so
    does every Constraint of a Model that the operations have built. *)
Theorem add_constraint_unknown_variable (m : Builder.model)
    (e : Builder.linear_expression) (o : Builder.operator) (r : Q)
    (cn : string) :
  ((exists n, In n (Builder.references e) /\
              ~ In n (map Builder.name (Builder.variables m))) ->
   fst (Builder.add_constraint e o r cn m) = inl Builder.UnknownVariableError /\
   Builder.constraints (snd (Builder.add_constraint e o r cn m))
     = Builder.constraints m /\
   snd (Builder.add_constraint e o r cn m) = m) /\
  (forall c m',
     Builder.add_constraint e o r cn m = (inr c, m') ->
     (forall n, In n (Builder.references (Builder.expression c)) ->
                In n (map Builder.name (Builder.variables m))) /\
     Builder.constraints m' = (Builder.constraints m ++ [c])%list) /\
  (Builder.reachable m ->
   Forall (fun c =>
             forall n, In n (Builder.references (Builder.expression c)) ->
                       In n (map Builder.name (Builder.variables m)))
          (Builder.constraints m)).
Proof.
  split; [| split].
  - intros (n & Hn & Hnot).
    assert (E : forallb (Builder.declared m) (Builder.references e) = false).
    { destruct (forallb (Builder.declared m) (Builder.references e)) eqn:E;
        [| reflexivity].
      exfalso. apply Hnot. exact (proj1 (references_declared m e) E n Hn). }
    unfold Builder.add_constraint. rewrite E. repeat split.
  - intros c m' Ha. apply add_constraint_success in Ha.
    destruct Ha as (-> & Hall & _ & Hc). split; [| exact Hc].
    simpl. apply references_declared. exact Hall.
  - apply reachable_constraints_declared.
Qed.

Lemma add_constraint_unknown_variable_witness :
  fst (Builder.add_constraint x1_plus_x2 Builder.le 4 "c1" one_variable)
    = inl Builder.UnknownVariableError /\
  Builder.constraints
    (snd (Builder.add_constraint x1_plus_x2 Builder.le 4 "c1" one_variable))
    = Builder.constraints one_variable /\
  snd (Builder.add_constraint x1_plus_x2 Builder.le 4 "c1" one_variable)
    = one_variable.
Proof.
  apply (proj1 (add_constraint_unknown_variable
                  one_variable x1_plus_x2 Builder.le 4 "c1")).
  exists "x2". split.
  - simpl. right. left. reflexivity.
  - simpl. intros [H | []]. discriminate H.
Defined.

(** ** Further facts about the two problems *)

(** The maximum of the Wyndor objective over the feasible points is 36,
    and (2, 6) attains it, whatever the solver. *)
Theorem wyndor_maximum :
  feasible Wyndor.model [2; 6] /\
  objval Wyndor.model [2; 6] == 36 /\
  (forall b, feasible Wyndor.model b -> objval Wyndor.model b <= 36).
Proof.
  split; [exact (proj1 wyndor_optimum) |].
  split; [rewrite wyndor_objval; lra |].
  intros b Hb. pose proof (proj2 wyndor_optimum b Hb) as H.
  change (ModelSense Wyndor.model) with MAXIMIZE in H. unfold no_worse in H.
  rewrite wyndor_objval in H. lra.
Qed.

(** The minimum of the Radiation Therapy objective over the feasible
    points is 5.25, and (7.5, 4.5, 1, 1) attains it, whatever the solver. *)
Theorem radiation_minimum :
  feasible Radiation.model [7.5; 4.5; 1; 1] /\
  objval Radiation.model [7.5; 4.5; 1; 1] == 5.25 /\
  (forall b, feasible Radiation.model b -> 5.25 <= objval Radiation.model b).
Proof.
  split; [exact (proj1 radiation_optimum) |].
  split; [rewrite radiation_objval; lra |].
  intros b Hb. pose proof (proj2 radiation_optimum b Hb) as H.
  change (ModelSense Radiation.model) with MINIMIZE in H. unfold no_worse in H.
  rewrite radiation_objval in H. lra.
Qed.

(** The feasible points of the Radiation Therapy model are the points
    (x1, 12 - x1, 1, 1) with 6 <= x1 <= 7.5. *)
Theorem radiation_feasible_segment :
  (forall a, feasible Radiation.model a ->
     exists x1 x2 y1 y2,
       a = [x1; x2; y1; y2] /\ 6 <= x1 <= 7.5 /\ x2 == 12 - x1 /\
       y1 == 1 /\ y2 == 1) /\
  (forall x1, 6 <= x1 <= 7.5 -> feasible Radiation.model [x1; 12 - x1; 1; 1]).
Proof.
  split.
  - intros a H. pose proof H as H'. apply radiation_feasible_iff in H'.
    destruct H' as (x1 & x2 & y1 & y2 & -> & Hx1 & Hx2 & _ & _ & Hc).
    destruct (radiation_feasible_y _ _ _ _ H) as [Hy1 Hy2].
    exists x1, x2, y1, y2. split; [reflexivity |].
    repeat split; try assumption; lra.
  - intros x1 Hx. apply radiation_feasible_iff.
    exists x1, (12 - x1), 1, 1. split; [reflexivity |].
    repeat split; try lra; right; reflexivity.
Qed.

(** ** Linking constraints in general *)

Lemma all_hold_In (a : list Q) (cs : list Constr) (c : Constr) :
  all_hold a cs -> In c cs -> holds a c.
Proof.
  induction cs as [| c' cs IH]; simpl; [contradiction |].
  intros [Hc Hcs] [<- | Hin]; [exact Hc | exact (IH Hcs Hin)].
Qed.

Lemma all_hold_app (a : list Q) (cs1 cs2 : list Constr) :
  all_hold a (cs1 ++ cs2) <-> all_hold a cs1 /\ all_hold a cs2.
Proof.
  induction cs1 as [| c cs1 IH]; simpl; [tauto |].
  rewrite IH. tauto.
Qed.

Lemma eval_var (a : list Q) (x : Var) : eval (var x) a == value a x.
Proof. unfold eval, var. simpl. lra. Qed.

Lemma eval_scale (a : list Q) (c : Q) (y : Var) :
  eval (scale c y) a == c * value a y.
Proof. unfold eval, scale. simpl. lra. Qed.

(** What the constraint [x <= M * y] read off a feasible point says. *)
Lemma linking_holds (m : Model) (x y : Var) (M : Q) (name : string)
    (a : list Q) :
  In (mkConstr name (var x) LE (scale M y)) (constrs m) ->
  feasible m a -> value a x <= M * value a y.
Proof.
  intros Hin [_ Hall]. pose proof (all_hold_In _ _ _ Hall Hin) as H.
  unfold holds in H. simpl in H. rewrite eval_var, eval_scale in H. exact H.
Qed.

(** A linking constraint [x <= M * y] between a column [x] with a lower
    bound of at least 0 and a binary column [y] does what the notebook says
    of it: in every feasible point [y] is 0 or 1, [x] is 0 when [y] is 0,
    [y] is 1 when [x] is positive, and [x] is at most [M] when [M] is not
    negative. *)
Theorem linking_semantics (m : Model) (x y : Var) (M : Q) (name : string)
    (ix iy : VarInfo) (a : list Q) :
  built m ->
  In (mkConstr name (var x) LE (scale M y)) (constrs m) ->
  nth_error (vars m) x = Some ix -> 0 <= LB ix ->
  nth_error (vars m) y = Some iy -> VType iy = BINARY ->
  feasible m a ->
  (value a y == 0 \/ value a y == 1) /\
  (value a y == 0 -> value a x == 0) /\
  (0 < value a x -> value a y == 1) /\
  (0 <= M -> value a x <= M).
Proof.
  intros Hb Hin Hx Hlb Hy Hbin Hf.
  pose proof (linking_holds m x y M name a Hin Hf) as Hlink.
  destruct Hf as [Hd _].
  destruct (domains_nth _ _ _ _ Hd Hx) as [[Hxl _] _].
  destruct (domains_nth _ _ _ _ Hd Hy) as [[Hyl Hyu] Hyi].
  rewrite Hbin in Hyi.
  pose proof (built_binary_bounded m Hb) as Hall.
  rewrite Forall_forall in Hall.
  destruct (Hall iy (nth_error_In _ _ Hy) Hbin) as [Hl0 Hu1].
  rewrite Hu1 in Hyu.
  assert (Hcases : value a y == 0 \/ value a y == 1).
  { apply binary_cases; [split; [lra | exact Hyu] | exact Hyi]. }
  split; [exact Hcases |].
  split; [| split].
  - intros H0. rewrite H0 in Hlink. lra.
  - intros Hpos. destruct Hcases as [H0 | H1]; [| exact H1].
    rewrite H0 in Hlink. lra.
  - intros HM. destruct Hcases as [H0 | H1].
    + rewrite H0 in Hlink. lra.
    + rewrite H1 in Hlink. lra.
Qed.

Lemma linking_semantics_witness :
  (value [6; 6; 1; 1] 3%nat == 0 \/ value [6; 6; 1; 1] 3%nat == 1) /\
  (value [6; 6; 1; 1] 3%nat == 0 -> value [6; 6; 1; 1] 1%nat == 0) /\
  (0 < value [6; 6; 1; 1] 1%nat -> value [6; 6; 1; 1] 3%nat == 1) /\
  (0 <= 10 -> value [6; 6; 1; 1] 1%nat <= 10).
Proof.
  apply (linking_semantics
           (execState (optimize radiation_oracle) Radiation.model)
           1%nat 3%nat 10 "Linking_x2_y2"
           (mkVarInfo "x2" CONTINUOUS 0 None)
           (mkVarInfo "y2" BINARY 0 (Some 1)) [6; 6; 1; 1]
           (radiation_built radiation_oracle)).
  - simpl. do 4 right. left. reflexivity.
  - reflexivity.
  - simpl. lra.
  - reflexivity.
  - reflexivity.
  - apply feasibleb_spec. vm_compute. reflexivity.
Defined.

(** ** When a Big-M constant is large enough *)

Lemma value_upd_other (a : list Q) (y x : Var) (q : Q) :
  x <> y -> value (upd a y q) x = value a x.
Proof.
  unfold value. revert y x.
  induction a as [| v a IH]; intros [| y] [| x] Hne; simpl; try reflexivity.
  - contradiction.
  - apply IH. intros E. apply Hne. f_equal. exact E.
Qed.

Lemma eval_terms_upd (ts : list (Q * Var)) (a : list Q) (y : Var) (q : Q) :
  existsb (fun t : Q * Var => Nat.eqb (snd t) y) ts = false ->
  eval_terms ts (upd a y q) = eval_terms ts a.
Proof.
  induction ts as [| [c x] ts IH]; simpl; [reflexivity |].
  intros H. apply orb_false_iff in H. destruct H as [Hx Hts].
  apply Nat.eqb_neq in Hx.
  rewrite (value_upd_other a y x q Hx), (IH Hts). reflexivity.
Qed.

Lemma eval_upd (e : LinExpr) (a : list Q) (y : Var) (q : Q) :
  mentions e y = false -> eval e (upd a y q) = eval e a.
Proof.
  intros H. unfold eval. rewrite (eval_terms_upd _ a y q H). reflexivity.
Qed.

Lemma domains_upd (vs : list VarInfo) (a : list Q) (y : Var) (iy : VarInfo)
    (q : Q) :
  domains vs a -> nth_error vs y = Some iy -> in_domain iy q ->
  domains vs (upd a y q).
Proof.
  revert a y. induction vs as [| i vs IH]; intros [| v a] y; simpl;
    try contradiction.
  - destruct y; discriminate.
  - intros [Hv Hd] Hy Hq. destruct y as [| y]; simpl in *.
    + injection Hy as ->. split; assumption.
    + split; [exact Hv | exact (IH a y Hd Hy Hq)].
Qed.

Lemma all_hold_upd (cs : list Constr) (a : list Q) (y : Var) (q : Q) :
  Forall (fun c => mentions (lhs c) y = false /\ mentions (rhs c) y = false) cs ->
  all_hold a cs -> all_hold (upd a y q) cs.
Proof.
  induction 1 as [| c cs [Hl Hr] _ IH]; simpl; [trivial |].
  intros [Hc Hcs]. split; [| exact (IH Hcs)].
  unfold holds in *. rewrite (eval_upd _ a y q Hl), (eval_upd _ a y q Hr).
  exact Hc.
Qed.

(** Adding a linking constraint [x <= M * y] to a model whose constraints
    do not mention [y] cuts off no feasible point in which [x] is at most
    [M]: with [y] set to 1 (a value the column [y] may take) the point is
    feasible in the model with the constraint, the value of [x] is the
    same, and so is the objective value when the objective does not
    mention [y]. *)
Theorem big_M_sufficient (m : Model) (x y : Var) (M : Q) (name : string)
    (iy : VarInfo) (a : list Q) :
  nth_error (vars m) y = Some iy -> in_domain iy 1 -> x <> y ->
  Forall (fun c => mentions (lhs c) y = false /\ mentions (rhs c) y = false)
         (constrs m) ->
  feasible m a -> value a x <= M ->
  feasible (execState (addConstr (var x <=: M *: y) name) m) (upd a y 1) /\
  value (upd a y 1) x = value a x /\
  (mentions (objective m) y = false ->
   objval (execState (addConstr (var x <=: M *: y) name) m) (upd a y 1)
   = objval m a).
Proof.
  intros Hy H1 Hne Hfree [Hd Hall] HM.
  assert (Hlen : (y < List.length a)%nat).
  { rewrite (domains_length _ _ Hd). apply nth_error_Some. congruence. }
  assert (Hvy : value (upd a y 1) y = 1).
  { clear - Hlen. unfold value. revert y Hlen.
    induction a as [| v a IH]; intros y Hlen; simpl in Hlen; [lia |].
    destruct y as [| y]; simpl; [reflexivity | apply IH; lia]. }
  split; [| split].
  - split.
    + change (vars (execState (addConstr (var x <=: M *: y) name) m))
        with (vars m).
      exact (domains_upd _ _ _ _ _ Hd Hy H1).
    + change (constrs (execState (addConstr (var x <=: M *: y) name) m))
        with (constrs m ++ [mkConstr name (var x) LE (scale M y)])%list.
      apply all_hold_app. split; [exact (all_hold_upd _ _ _ _ Hfree Hall) |].
      simpl. split; [| trivial].
      unfold holds. simpl. rewrite eval_var, eval_scale.
      rewrite (value_upd_other a y x 1 Hne), Hvy. lra.
  - exact (value_upd_other a y x 1 Hne).
  - intros Hobj. unfold objval.
    change (objective (execState (addConstr (var x <=: M *: y) name) m))
      with (objective m).
    exact (eval_upd _ a y 1 Hobj).
Qed.

Lemma big_M_sufficient_witness :
  feasible
    (execState (addConstr (var 0%nat <=: 10 *: 2%nat) "Linking_x1_y1")
       Radiation.model_unlinked)
    (upd [7.5; 4.5; 0; 0] 2%nat 1) /\
  value (upd [7.5; 4.5; 0; 0] 2%nat 1) 0%nat = value [7.5; 4.5; 0; 0] 0%nat /\
  (mentions (objective Radiation.model_unlinked) 2%nat = false ->
   objval
     (execState (addConstr (var 0%nat <=: 10 *: 2%nat) "Linking_x1_y1")
        Radiation.model_unlinked)
     (upd [7.5; 4.5; 0; 0] 2%nat 1)
   = objval Radiation.model_unlinked [7.5; 4.5; 0; 0]).
Proof.
  apply (big_M_sufficient Radiation.model_unlinked 0%nat 2%nat 10
           "Linking_x1_y1" (mkVarInfo "y1" BINARY 0 (Some 1))
           [7.5; 4.5; 0; 0]).
  - reflexivity.
  - apply in_domainb_spec. vm_compute. reflexivity.
  - discriminate.
  - repeat constructor.
  - apply feasibleb_spec. vm_compute. reflexivity.
  - vm_compute. discriminate.
Defined.

(** ** Handles stay valid *)

Lemma call_appends (m m' : Model) :
  call m m' ->
  exists vs cs,
    vars m' = (vars m ++ vs)%list /\ constrs m' = (constrs m ++ cs)%list.
Proof.
  intros [name vt lb m0 | e s m0 | tc name m0 | solver m0].
  - destruct (addVar_vars name vt lb m0) as (i & Hv & _).
    exists [i], []. rewrite Hv, app_nil_r. split; reflexivity.
  - exists [], []. rewrite !app_nil_r. split; reflexivity.
  - exists [], [mkConstr name (tc_lhs tc) (tc_sense tc) (tc_rhs tc)].
    rewrite app_nil_r. split; reflexivity.
  - exists [], []. rewrite !app_nil_r. split; reflexivity.
Qed.

Lemma extends_appends (m m' : Model) :
  extends m m' ->
  exists vs cs,
    vars m' = (vars m ++ vs)%list /\ constrs m' = (constrs m ++ cs)%list.
Proof.
  induction 1 as [m | m1 m2 m3 _ (vs & cs & Hv & Hc) Hcall].
  - exists [], []. rewrite !app_nil_r. split; reflexivity.
  - destruct (call_appends _ _ Hcall) as (vs' & cs' & Hv' & Hc').
    exists (vs ++ vs')%list, (cs ++ cs')%list.
    rewrite Hv', Hc', Hv, Hc, !app_assoc. split; reflexivity.
Qed.

Lemma nth_error_app_left {A : Type} (l l' : list A) (n : nat) (x : A) :
  nth_error l n = Some x -> nth_error (l ++ l') n = Some x.
Proof.
  intros H. rewrite nth_error_app1; [exact H |].
  apply nth_error_Some. congruence.
Qed.

(** The handle that [addVar] returns names the column it has added, with
    the name and the type passed, and goes on naming it whatever calls
    follow; the calls never remove or move a column or a constraint, so the
    handles and rows obtained before stay valid too. *)
Theorem handle_stays_valid (name : string) (vt : vtype) (lb : option Q)
    (m m' : Model) :
  extends (execState (addVar name vt lb) m) m' ->
  (exists i,
     nth_error (vars m') (evalState (addVar name vt lb) m) = Some i /\
     VarName i = name /\ VType i = vt) /\
  (forall x ix, nth_error (vars m) x = Some ix ->
                nth_error (vars m') x = Some ix) /\
  (forall r c, nth_error (constrs m) r = Some c ->
               nth_error (constrs m') r = Some c).
Proof.
  intros Hext.
  destruct (extends_appends _ _ Hext) as (vs & cs & Hv & Hc).
  destruct (addVar_vars name vt lb m) as (i & Hv0 & Hn & Ht & _).
  rewrite Hv0 in Hv.
  change (constrs (execState (addVar name vt lb) m)) with (constrs m) in Hc.
  split; [| split].
  - exists i. split; [| split; assumption].
    change (evalState (addVar name vt lb) m) with (List.length (vars m)).
    rewrite Hv. apply nth_error_app_left.
    rewrite nth_error_app2, Nat.sub_diag; [reflexivity | lia].
  - intros x ix Hx. rewrite Hv, <- app_assoc. apply nth_error_app_left. exact Hx.
  - intros r c Hr. rewrite Hc. apply nth_error_app_left. exact Hr.
Qed.

Lemma wyndor_extends :
  extends
    (execState (addVar "x1" CONTINUOUS (Some 0)) (newModel "Wyndor_Glass_Co"))
    Wyndor.model.
Proof.
  change Wyndor.model with
    (execState (addConstr (3 *: 0%nat +: 2 *: 1%nat <=: const 18) "Plant3_Capacity")
    (execState (addConstr (2 *: 1%nat <=: const 12) "Plant2_Capacity")
    (execState (addConstr (var 0%nat <=: const 4) "Plant1_Capacity")
    (execState (setObjective (3 *: 0%nat +: 5 *: 1%nat) MAXIMIZE)
    (execState (addVar "x2" CONTINUOUS (Some 0))
    (execState (addVar "x1" CONTINUOUS (Some 0))
       (newModel "Wyndor_Glass_Co"))))))).
  do 5 (eapply extends_call; [| constructor]). apply extends_refl.
Qed.

Lemma handle_stays_valid_witness :
  (exists i,
     nth_error (vars Wyndor.model)
       (evalState (addVar "x1" CONTINUOUS (Some 0))
          (newModel "Wyndor_Glass_Co")) = Some i /\
     VarName i = "x1" /\ VType i = CONTINUOUS) /\
  (forall x ix, nth_error (vars (newModel "Wyndor_Glass_Co")) x = Some ix ->
                nth_error (vars Wyndor.model) x = Some ix) /\
  (forall r c, nth_error (constrs (newModel "Wyndor_Glass_Co")) r = Some c ->
               nth_error (constrs Wyndor.model) r = Some c).
Proof.
  exact (handle_stays_valid "x1" CONTINUOUS (Some 0)
           (newModel "Wyndor_Glass_Co") Wyndor.model wyndor_extends).
Defined.

(** ** When a report cell raises *)

Lemma run_getX_any (m : Model) (x : Var) (out : list line) :
  runState (unEitherT (getX m x)) out =
  if Nat.ltb x (List.length (stored m))
  then (inr (value (stored m) x), out)
  else (inl (AttributeError "X"), out).
Proof.
  unfold getX, stored, value. destruct (Sol m) as [s |]; simpl.
  - destruct (Nat.ltb_spec x (List.length (X s))) as [Hlt | Hge].
    + destruct (nth_error (X s) x) as [q |] eqn:E.
      * rewrite (nth_error_nth _ _ 0 E). reflexivity.
      * apply nth_error_None in E. lia.
    + apply nth_error_None in Hge. rewrite Hge. reflexivity.
  - reflexivity.
Qed.

(** The value lines: all printed, or printed up to the first item whose
    column has no stored value, where the read raises. *)
Lemma run_print_values_any (m : Model) (items : list (string * Var))
    (out : list line) :
  (Forall (fun it : string * Var => (snd it < List.length (stored m))%nat) items /\
   runState (unEitherT (print_values m items)) out
   = (inr tt, (out ++ map (shown_item m) items)%list)) \/
  (exists k it,
     nth_error items k = Some it /\
     (List.length (stored m) <= snd it)%nat /\
     runState (unEitherT (print_values m items)) out
     = (inl (AttributeError "X"),
        (out ++ map (shown_item m) (firstn k items))%list)).
Proof.
  revert out. induction items as [| [label x] rest IH]; intros out.
  - left. split; [constructor |]. simpl. rewrite app_nil_r. reflexivity.
  - change (print_values m ((label, x) :: rest))
      with (bind (getX m x)
              (fun v => bind (print (Shown label v))
                          (fun _ => print_values m rest))).
    rewrite run_bind, run_getX_any.
    destruct (Nat.ltb_spec x (List.length (stored m))) as [Hlt | Hge].
    + rewrite run_bind, run_print.
      destruct (IH (out ++ [Shown label (value (stored m) x)])%list)
        as [[Hall Hrun] | (k & it & Hk & Hit & Hrun)].
      * left. split; [constructor; [exact Hlt | exact Hall] |].
        rewrite Hrun. simpl. rewrite <- app_assoc. reflexivity.
      * right. exists (S k), it. split; [exact Hk |]. split; [exact Hit |].
        rewrite Hrun. simpl. rewrite <- app_assoc. reflexivity.
    + right. exists 0%nat, (label, x). split; [reflexivity |].
      split; [exact Hge |]. simpl. rewrite app_nil_r. reflexivity.
Qed.

(** A report cell raises only when the status is optimal and a value it
    reads is not stored: a column of one of its items ([AttributeError] on
    [X]), or, after all value lines, the objective value of a model without
    solution ([AttributeError] on [ObjVal]).  What it has printed by then is
    the heading and the value lines of the items before the failing one. *)
Theorem report_raises (found : string) (items : list (string * Var))
    (objlabel none : string) (m : Model) (e : exn) (out : list line) :
  run (report found items objlabel none m) = (inl e, out) ->
  Status m = OPTIMAL /\
  ((exists k it,
      nth_error items k = Some it /\
      (List.length (stored m) <= snd it)%nat /\
      e = AttributeError "X" /\
      out = Text found :: map (shown_item m) (firstn k items)) \/
   (Sol m = None /\ items = [] /\
    e = AttributeError "ObjVal" /\ out = [Text found])).
Proof.
  unfold report, run.
  destruct (status_eqb (Status m) OPTIMAL) eqn:E; [| discriminate].
  apply status_eqb_spec in E. intros Hrun. split; [exact E |].
  rewrite run_bind, run_print, run_bind in Hrun.
  destruct (run_print_values_any m items ([] ++ [Text found]))
    as [[Hall Hpv] | (k & it & Hk & Hit & Hpv)]; rewrite Hpv in Hrun.
  - right. rewrite run_bind in Hrun. unfold getObjVal in Hrun.
    destruct (Sol m) as [s |] eqn:Es; [discriminate |].
    simpl in Hrun. injection Hrun as <- <-.
    destruct items as [| it rest].
    + repeat split.
    + exfalso. inversion Hall as [| ? ? Hit _]; subst.
      unfold stored in Hit. rewrite Es in Hit. simpl in Hit. lia.
  - left. injection Hrun as <- <-. exists k, it. repeat split; assumption.
Qed.

Lemma report_raises_witness :
  Status half_solved = OPTIMAL /\
  ((exists k it,
      nth_error [("x1 = ", 0%nat); ("x2 = ", 1%nat)] k = Some it /\
      (List.length (stored half_solved) <= snd it)%nat /\
      AttributeError "X" = AttributeError "X" /\
      [Text "found"; Shown "x1 = " 2]
      = Text "found"
          :: map (shown_item half_solved)
               (firstn k [("x1 = ", 0%nat); ("x2 = ", 1%nat)])) \/
   (Sol half_solved = None /\
    [("x1 = ", 0%nat); ("x2 = ", 1%nat)] = [] /\
    AttributeError "X" = AttributeError "ObjVal" /\
    [Text "found"; Shown "x1 = " 2] = [Text "found"])).
Proof.
  apply (report_raises "found" [("x1 = ", 0%nat); ("x2 = ", 1%nat)]
           "z = " "none" half_solved).
  reflexivity.
Defined.

(** ** A report after an exact solve *)

Lemma run_report_other (found : string) (items : list (string * Var))
    (objlabel none : string) (m : Model) :
  Status m <> OPTIMAL ->
  run (report found items objlabel none m) = (inr tt, [Text none]).
Proof.
  intros Hne. unfold report.
  destruct (status_eqb (Status m) OPTIMAL) eqn:E; [| reflexivity].
  apply status_eqb_spec in E. contradiction.
Qed.

Lemma run_report_solution (found : string) (items : list (string * Var))
    (objlabel none : string) (m : Model) (s : Solution) :
  Status m = OPTIMAL -> Sol m = Some s ->
  Forall (fun it : string * Var => (snd it < List.length (X s))%nat) items ->
  run (report found items objlabel none m) =
  (inr tt,
   (Text found :: map (shown_item m) items ++ [Shown objlabel (ObjVal s)])%list).
Proof.
  intros Hst Hs Hall. unfold report, run. rewrite Hst.
  change (status_eqb OPTIMAL OPTIMAL) with true. cbv iota.
  rewrite run_bind, run_print.
  rewrite run_bind, (run_print_values m s items _ Hs Hall).
  unfold getObjVal, shown_item, stored. rewrite Hs. reflexivity.
Qed.

(** After an exact solve, a report cell over columns of the model never
    raises, whatever the problem: it prints the line that says no optimal
    solution was found, or the heading, the values of an optimum of the
    model and the objective value of that optimum. *)
Theorem exact_report_runs (found : string) (items : list (string * Var))
    (objlabel none : string) (m : Model) :
  exact m ->
  Forall (fun it : string * Var => (snd it < List.length (vars m))%nat) items ->
  (Status m <> OPTIMAL /\
   run (report found items objlabel none m) = (inr tt, [Text none])) \/
  (exists s,
     Status m = OPTIMAL /\ Sol m = Some s /\
     is_optimum m (X s) /\ ObjVal s == objval m (X s) /\
     run (report found items objlabel none m) =
     (inr tt,
      (Text found :: map (shown_item m) items
         ++ [Shown objlabel (ObjVal s)])%list)).
Proof.
  intros Hex Hitems.
  destruct (status_eqb (Status m) OPTIMAL) eqn:E.
  - apply status_eqb_spec in E. right.
    destruct (exact_sound m Hex E) as (s & Hs & Hopt & Hobj).
    exists s. repeat split; try assumption; try apply Hopt.
    apply run_report_solution; [exact E | exact Hs |].
    rewrite (domains_length _ _ (proj1 (proj1 Hopt))). exact Hitems.
  - left.
    assert (Hne : Status m <> OPTIMAL).
    { intros H. apply status_eqb_spec in H. congruence. }
    split; [exact Hne | exact (run_report_other _ _ _ _ m Hne)].
Qed.

Lemma exact_report_runs_witness :
  (Status (execState (optimize wyndor_oracle) Wyndor.model) <> OPTIMAL /\
   run (report "found" [("x2 = ", Wyndor.x2)] "z = " "none"
          (execState (optimize wyndor_oracle) Wyndor.model))
   = (inr tt, [Text "none"])) \/
  (exists s,
     Status (execState (optimize wyndor_oracle) Wyndor.model) = OPTIMAL /\
     Sol (execState (optimize wyndor_oracle) Wyndor.model) = Some s /\
     is_optimum (execState (optimize wyndor_oracle) Wyndor.model) (X s) /\
     ObjVal s
       == objval (execState (optimize wyndor_oracle) Wyndor.model) (X s) /\
     run (report "found" [("x2 = ", Wyndor.x2)] "z = " "none"
            (execState (optimize wyndor_oracle) Wyndor.model)) =
     (inr tt,
      (Text "found"
         :: map (shown_item (execState (optimize wyndor_oracle) Wyndor.model))
              [("x2 = ", Wyndor.x2)]
         ++ [Shown "z = " (ObjVal s)])%list)).
Proof.
  apply (exact_report_runs "found" [("x2 = ", Wyndor.x2)] "z = " "none"
           (execState (optimize wyndor_oracle) Wyndor.model)
           wyndor_oracle_exact).
  repeat constructor.
Defined.

(** ** Exact solves of one model *)

(** Two exact solves of one model, by whatever solvers, end with the
    status optimal together or not at all, and when they do the objective
    values they store are equal: the last line a notebook prints does not
    depend on the solver, also when the model has several optima. *)
Theorem exact_solves_same_objective (m : Model) (solver1 solver2 : solver_t) :
  exact (execState (optimize solver1) m) ->
  exact (execState (optimize solver2) m) ->
  (Status (execState (optimize solver1) m) = OPTIMAL <->
   Status (execState (optimize solver2) m) = OPTIMAL) /\
  (Status (execState (optimize solver1) m) = OPTIMAL ->
   exists s1 s2,
     Sol (execState (optimize solver1) m) = Some s1 /\
     Sol (execState (optimize solver2) m) = Some s2 /\
     ObjVal s1 == ObjVal s2).
Proof.
  intros H1 H2.
  assert (Hiff : Status (execState (optimize solver1) m) = OPTIMAL <->
                 Status (execState (optimize solver2) m) = OPTIMAL).
  { split; intros Hst.
    - destruct (exact_sound _ H1 Hst) as (s & _ & Hopt & _).
      apply (exact_complete _ H2). exists (X s). exact Hopt.
    - destruct (exact_sound _ H2 Hst) as (s & _ & Hopt & _).
      apply (exact_complete _ H1). exists (X s). exact Hopt. }
  split; [exact Hiff |].
  intros Hst1. pose proof (proj1 Hiff Hst1) as Hst2.
  destruct (exact_sound _ H1 Hst1) as (s1 & Hs1 & [F1 B1] & V1).
  destruct (exact_sound _ H2 Hst2) as (s2 & Hs2 & [F2 B2] & V2).
  exists s1, s2. split; [exact Hs1 |]. split; [exact Hs2 |].
  rewrite V1, V2.
  specialize (B1 _ F2). specialize (B2 _ F1).
  change (ModelSense (execState (optimize solver1) m)) with (ModelSense m) in B1.
  change (ModelSense (execState (optimize solver2) m)) with (ModelSense m) in B2.
  change (objval (execState (optimize solver1) m)) with (objval m) in *.
  change (objval (execState (optimize solver2) m)) with (objval m) in *.
  destruct (ModelSense m); unfold no_worse in B1, B2; lra.
Qed.

Lemma wyndor_oracle'_exact :
  exact (execState (optimize wyndor_oracle') Wyndor.model).
Proof.
  constructor.
  - reflexivity.
  - intros _. exists (mkSolution [4 # 2; 12 # 2] (72 # 2)).
    split; [reflexivity |]. split; [| vm_compute; reflexivity].
    split.
    + apply feasibleb_spec. vm_compute. reflexivity.
    + intros b Hb. pose proof (proj2 wyndor_optimum b Hb) as H.
      change (ModelSense (execState (optimize wyndor_oracle') Wyndor.model))
        with MAXIMIZE.
      change (ModelSense Wyndor.model) with MAXIMIZE in H.
      unfold no_worse in *. simpl X.
      change (objval (execState (optimize wyndor_oracle') Wyndor.model))
        with (objval Wyndor.model).
      rewrite wyndor_objval in H. rewrite wyndor_objval. lra.
Qed.

Lemma exact_solves_same_objective_witness :
  (Status (execState (optimize wyndor_oracle) Wyndor.model) = OPTIMAL <->
   Status (execState (optimize wyndor_oracle') Wyndor.model) = OPTIMAL) /\
  (Status (execState (optimize wyndor_oracle) Wyndor.model) = OPTIMAL ->
   exists s1 s2,
     Sol (execState (optimize wyndor_oracle) Wyndor.model) = Some s1 /\
     Sol (execState (optimize wyndor_oracle') Wyndor.model) = Some s2 /\
     ObjVal s1 == ObjVal s2).
Proof.
  exact (exact_solves_same_objective Wyndor.model wyndor_oracle wyndor_oracle'
           wyndor_oracle_exact wyndor_oracle'_exact).
Defined.

(** ** The editions print the same numbers *)

Lemma numbers_app (out out' : list line) :
  numbers (out ++ out') = (numbers out ++ numbers out')%list.
Proof.
  induction out as [| [s | s q] out IH]; simpl; [reflexivity | exact IH |].
  rewrite IH. reflexivity.
Qed.

Lemma print_values_texts (m : Model) (items items' : list (string * Var))
    (out out' : list line) :
  map snd items = map snd items' ->
  numbers out = numbers out' -> List.length out = List.length out' ->
  fst (runState (unEitherT (print_values m items)) out)
  = fst (runState (unEitherT (print_values m items')) out') /\
  numbers (snd (runState (unEitherT (print_values m items)) out))
  = numbers (snd (runState (unEitherT (print_values m items')) out')) /\
  List.length (snd (runState (unEitherT (print_values m items)) out))
  = List.length (snd (runState (unEitherT (print_values m items')) out')).
Proof.
  revert items' out out'.
  induction items as [| [label x] rest IH]; intros [| [label' x'] rest'] out out';
    simpl map; try discriminate.
  - intros _ Hn Hl. simpl. auto.
  - intros [= <- Hrest] Hn Hl.
    change (print_values m ((label, x) :: rest))
      with (bind (getX m x)
              (fun v => bind (print (Shown label v))
                          (fun _ => print_values m rest))).
    change (print_values m ((label', x) :: rest'))
      with (bind (getX m x)
              (fun v => bind (print (Shown label' v))
                          (fun _ => print_values m rest'))).
    rewrite !run_bind, !run_getX_any.
    destruct (Nat.ltb x (List.length (stored m))).
    + rewrite !run_bind, !run_print. apply IH; [exact Hrest | |].
      * rewrite !numbers_app, Hn. reflexivity.
      * rewrite !length_app, Hl. reflexivity.
    + simpl. auto.
Qed.

(** What a report cell does depends on its texts through the texts it
    prints only: two cells over the same columns end the same way (normally
    or with the same exception), print the same number of lines and show
    the same numbers in the same order. *)
Lemma report_texts (found found' : string) (items items' : list (string * Var))
    (objlabel objlabel' none none' : string) (m : Model) :
  map snd items = map snd items' ->
  fst (run (report found items objlabel none m))
  = fst (run (report found' items' objlabel' none' m)) /\
  numbers (snd (run (report found items objlabel none m)))
  = numbers (snd (run (report found' items' objlabel' none' m))) /\
  List.length (snd (run (report found items objlabel none m)))
  = List.length (snd (run (report found' items' objlabel' none' m))).
Proof.
  intros Hitems. unfold report, run.
  destruct (status_eqb (Status m) OPTIMAL); [| simpl; auto].
  rewrite !run_bind, !run_print, !run_bind.
  destruct (print_values_texts m items items'
              ([] ++ [Text found])%list ([] ++ [Text found'])%list Hitems
              eq_refl eq_refl) as (Hf & Hn & Hl).
  destruct (runState (unEitherT (print_values m items)) ([] ++ [Text found])%list)
    as [[e | []] out].
  - destruct (runState (unEitherT (print_values m items'))
                ([] ++ [Text found'])%list) as [[e' | []] out']; simpl in *;
      [auto | discriminate].
  - destruct (runState (unEitherT (print_values m items'))
                ([] ++ [Text found'])%list) as [[e' | []] out']; simpl in *;
      [discriminate |].
    unfold getObjVal.
    destruct (Sol m) as [s |]; simpl.
    + rewrite !numbers_app, !length_app, Hn, Hl. auto.
    + auto.
Qed.

(** The Mandarin edition of the Wyndor notebook reports as the English
    one does: on every model the two report cells end the same way, print
    the same number of lines and show the same numbers in the same
    order. *)
Theorem editions_agree (m : Model) :
  fst (run (wyndor_report m)) = fst (run (wyndor_report_zh m)) /\
  numbers (snd (run (wyndor_report m)))
  = numbers (snd (run (wyndor_report_zh m))) /\
  List.length (snd (run (wyndor_report m)))
  = List.length (snd (run (wyndor_report_zh m))).
Proof. apply report_texts. reflexivity. Qed.

(** ** The linking constraints and the optimum *)



(** ** Problems without optimum *)

(** When the problem has no optimum (it is infeasible, or unbounded), an
    exact solve does not end with the status optimal, and a report cell
    prints the one line that says so and ends normally: such a problem is
    reported, never an exception and never a value. *)
Theorem no_optimum_reported (found : string) (items : list (string * Var))
    (objlabel none : string) (m : Model) :
  (forall a, ~ is_optimum m a) -> exact m ->
  Status m <> OPTIMAL /\
  run (report found items objlabel none m) = (inr tt, [Text none]).
Proof.
  intros Hno Hex.
  assert (Hne : Status m <> OPTIMAL).
  { intros Hst. destruct (exact_sound m Hex Hst) as (s & _ & Hopt & _).
    exact (Hno _ Hopt). }
  split; [exact Hne | exact (run_report_other _ _ _ _ m Hne)].
Qed.

Lemma contradictory_infeasible (a : list Q) : ~ feasible contradictory a.
Proof.
  intros H. pose proof (domains_length _ _ (proj1 H)) as Hl.
  destruct a as [| x [| ? ?]]; try discriminate Hl.
  unfold contradictory in H. unfold_sem_in H. lra.
Qed.

Lemma contradictory_exact :
  exact (execState (optimize refusing_solver) contradictory).
Proof.
  constructor.
  - intros (a & Hf & _). exfalso. exact (contradictory_infeasible a Hf).
  - discriminate.
Qed.

Lemma no_optimum_reported_witness :
  Status (execState (optimize refusing_solver) contradictory) <> OPTIMAL /\
  run (report "found" [("x = ", 0%nat)] "z = " "none"
         (execState (optimize refusing_solver) contradictory))
  = (inr tt, [Text "none"]).
Proof.
  apply (no_optimum_reported "found" [("x = ", 0%nat)] "z = " "none"
           (execState (optimize refusing_solver) contradictory)).
  - intros a [Hf _]. exact (contradictory_infeasible a Hf).
  - exact contradictory_exact.
Defined.


(** ** Values respect the bounds the calls declare *)

(** The column a call of [addVar] adds: its type is the one passed, its
    lower bound is at least the one declared, and a binary column is
    bounded to [0, 1]. *)
Lemma addVar_column (name : string) (vt : vtype) (lb : option Q) (m : Model) :
  exists i,
    vars (execState (addVar name vt lb) m) = (vars m ++ [i])%list /\
    VType i = vt /\ declared_lb lb <= LB i /\
    (vt = BINARY -> 0 <= LB i /\ UB i = Some 1).
Proof.
  destruct vt.
  - eexists. split; [reflexivity |]. split; [reflexivity |].
    split; [apply Qle_refl | discriminate].
  - eexists. split; [reflexivity |]. split; [reflexivity |].
    split; [apply Q.le_max_l |]. intros _. split; [apply Q.le_max_r | reflexivity].
  - eexists. split; [reflexivity |]. split; [reflexivity |].
    split; [apply Qle_refl | discriminate].
Qed.

(** Every column of a model the calls have built was added by a call of
    [addVar], and is named by the handle that call returned. *)
Lemma built_column_declared (m : Model) (x : Var) (i : VarInfo) :
  built m -> nth_error (vars m) x = Some i ->
  exists name vt lb m0,
    built m0 /\ extends (execState (addVar name vt lb) m0) m /\
    x = evalState (addVar name vt lb) m0.
Proof.
  intros Hb. revert x i.
  induction Hb as [name | name vt lb m Hb IH | e s m Hb IH
                  | tc name m Hb IH | solver m Hb IH]; intros x i Hx.
  - destruct x; discriminate.
  - destruct (addVar_column name vt lb m) as (j & Hv & _).
    rewrite Hv in Hx.
    destruct (Nat.lt_ge_cases x (List.length (vars m))) as [Hlt | Hge].
    + rewrite nth_error_app1 in Hx by exact Hlt.
      destruct (IH x i Hx) as (n0 & vt0 & lb0 & m0 & Hb0 & Hext & Hh).
      exists n0, vt0, lb0, m0. split; [exact Hb0 |]. split; [| exact Hh].
      eapply extends_call; [exact Hext | constructor].
    + exists name, vt, lb, m. split; [exact Hb |]. split; [apply extends_refl |].
      change (evalState (addVar name vt lb) m) with (List.length (vars m)).
      assert (Hlen : (x < List.length (vars m ++ [j]))%nat).
      { apply nth_error_Some. congruence. }
      rewrite length_app in Hlen. simpl in Hlen. lia.
  - destruct (IH x i Hx) as (n0 & vt0 & lb0 & m0 & Hb0 & Hext & Hh).
    exists n0, vt0, lb0, m0. split; [exact Hb0 |]. split; [| exact Hh].
    eapply extends_call; [exact Hext | constructor].
  - destruct (IH x i Hx) as (n0 & vt0 & lb0 & m0 & Hb0 & Hext & Hh).
    exists n0, vt0, lb0, m0. split; [exact Hb0 |]. split; [| exact Hh].
    eapply extends_call; [exact Hext | constructor].
  - destruct (IH x i Hx) as (n0 & vt0 & lb0 & m0 & Hb0 & Hext & Hh).
    exists n0, vt0, lb0, m0. split; [exact Hb0 |]. split; [| exact Hh].
    eapply extends_call; [exact Hext | constructor].
Qed.




